(** * ciadmin: resource collections and their diffs

    A shallow embedding of [ciadmin/resources/resources.py] and
    [ciadmin/diff.py].  Python [str] values are modelled as [string]
    (sequences of code points below 256, compared code point by code
    point as Python does), dictionaries as [gmap], sets as [gset], and
    exceptions by the [result] monad. *)

From Stdlib Require Import Ascii.
From stdpp Require Import gmap strings list sorting pretty.

(** ** Python values and exceptions *)

(** Values that a resource field holds; [attr.asdict] leaves these
    unchanged. *)
Inductive value :=
  | VNone
  | VInt (n : Z)
  | VStr (s : string).

Global Instance value_eq_dec : EqDecision value.
Proof. solve_decision. Defined.

Global Instance value_inhabited : Inhabited value := populate VNone.

(** [str(v)], as used by ['{}'.format(v)]. *)
Definition str (v : value) : string :=
  match v with
  | VNone => "None"
  | VInt n => pretty n
  | VStr s => s
  end.

Inductive exn :=
  | RuntimeError (msg : string)
  | KeyError (key : value)
  | TypeError
  | ValueError
  | IndexError.

Inductive result (A : Type) :=
  | Ok (a : A)
  | Raise (e : exn).
Global Arguments Ok {A} a.
Global Arguments Raise {A} e.

Global Instance result_ret : MRet result := @Ok.
Global Instance result_bind : MBind result := λ A B f m,
  match m with
  | Ok a => f a
  | Raise e => Raise e
  end.
Global Instance result_fmap : FMap result := λ A B f m,
  match m with
  | Ok a => Ok (f a)
  | Raise e => Raise e
  end.

(** [sep.join(xs)] *)
Fixpoint join (sep : string) (xs : list string) : string :=
  match xs with
  | [] => ""
  | x :: xs' =>
      match xs' with
      | [] => x
      | _ :: _ => x +:+ sep +:+ join sep xs'
      end
  end.

(** [SortedKeyList.add]: insertion to the right of every element whose
    key is not greater ([bisect_right]). *)
Fixpoint insort {A} (key : A → string) (x : A) (l : list A) : list A :=
  match l with
  | [] => [x]
  | y :: l' =>
      if bool_decide (String.le (key y) (key x))
      then y :: insort key x l'
      else x :: l
  end.

(** [sorted(l, key=key)]: the stable sort by key. *)
Definition sorted_by {A} (key : A → string) (l : list A) : list A :=
  foldl (λ acc x, insort key x acc) [] l.

(** [sorted(l)] on strings. *)
Definition sorted (l : list string) : list string := sorted_by (λ s, s) l.

(** Strict lexicographic order on strings. *)
Definition str_lt : relation string := strict String.le.

(** Number of occurrences of [x] in [l]. *)
Definition occurrences (x : string) (l : list string) : nat :=
  length (filter (x =.) l).

(** ** Resource *)

(** An instance of a subclass of [Resource]: the class name and the
    attrs fields in declaration order, the first one being the primary
    key. *)
Record Resource := mkResource {
  kind : string;
  key_field : string * value;
  other_fields : list (string * value);
}.

Global Instance Resource_eq_dec : EqDecision Resource.
Proof. solve_decision. Defined.

(** [attr.fields(self.__class__)] paired with the instance's values. *)
Definition fields (r : Resource) : list (string * value) :=
  key_field r :: other_fields r.

Definition field_names (r : Resource) : list string := (fields r).*1.

(** [Resource.id] *)
Definition id (r : Resource) : string :=
  kind r +:+ "=" +:+ str (key_field r).2.

(** [attr.asdict(r)] *)
Definition asdict (r : Resource) : gmap string value :=
  foldl (λ d f, <[f.1 := f.2]> d) ∅ (fields r).

(** ** Resources *)

(** Modelled from the spec: [MatchList] of [ciadmin/util.py], a collection
    of ownership patterns kept in the order given, whose [matches(id)]
    holds iff some pattern matches [id].  The pattern language itself is
    the parameter [pattern_matches] below. *)
Definition MatchList := list string.

Record Resources := mkResources {
  resources : list Resource;
  managed : MatchList;
}.

Section collection.
Context (pattern_matches : string → string → bool).

Definition matches (ml : MatchList) (s : string) : bool :=
  existsb (λ p, pattern_matches p s) ml.

(** [Resources.is_managed] *)
Definition is_managed (self : Resources) (i : string) : bool :=
  matches (managed self) i.

(** The duplicates found by comparing each id with its predecessor. *)
Definition adjacent_dupes (ids : list string) : list string :=
  omap (λ p : option string * string,
          if decide (p.1 = Some p.2) then p.1 else None)
       (zip (None :: (Some <$> ids)) ids).

(** [Resources._verify] *)
Definition _verify (self : Resources) : result unit :=
  let dupes := adjacent_dupes (id <$> resources self) in
  if decide (dupes ≠ []) then
    let unique_dupes := sorted (elements (list_to_set dupes : gset string)) in
    Raise (RuntimeError ("duplicate resources: " +:+ join ", " unique_dupes))
  else
    let unmanaged :=
      sorted (id <$> filter (λ r, is_managed self (id r) = false)
                            (resources self)) in
    if decide (unmanaged ≠ []) then
      Raise (RuntimeError ("unmanaged resources: " +:+ join ", " unmanaged))
    else Ok ().

(** [Resources(resources, managed)]: the attrs converters followed by
    [__attrs_post_init__]. *)
Definition Resources_init (rs : list Resource) (ms : list string)
  : result Resources :=
  let self := mkResources (sorted_by id rs) ms in
  _ ← _verify self;
  Ok self.

(** [Resources.add]; the second component is the collection after the
    call. *)
Definition add (self : Resources) (resource : Resource)
  : result unit * Resources :=
  if is_managed self (id resource) then
    (Ok (), mkResources (insort id resource (resources self)) (managed self))
  else
    (Raise (RuntimeError ("unmanaged resource: " +:+ id resource)), self).

(** [Resources.manage] *)
Definition manage (self : Resources) (pattern : string) : Resources :=
  mkResources (resources self) (managed self ++ [pattern]).

(** [Resources.__iter__] *)
Definition iter (self : Resources) : list Resource := resources self.

End collection.

(** ** Serialisation *)

(** [Resource.to_json] *)
Definition Resource_to_json (r : Resource) : gmap string value :=
  <["kind" := VStr (kind r)]> (asdict r).

(** A subclass of [Resource]: its [__name__] and its attrs field names
    in declaration order. *)
Record Class := mkClass {
  cname : string;
  key_attr : string;
  other_attrs : list string;
}.

Definition attrs (c : Class) : list string := key_attr c :: other_attrs c.

(** [Resource._kind_classes()], where [subclasses] stands for
    [Resource.__subclasses__()]. *)
Definition _kind_classes (subclasses : list Class) : gmap string Class :=
  foldl (λ d c, <[cname c := c]> d) ∅ subclasses.

(** The attrs-generated [__init__] of a class, called with keyword
    arguments only: every field must be given and no other name. *)
Definition Class_call (c : Class) (kwargs : gmap string value)
  : result Resource :=
  if decide (dom kwargs = list_to_set (attrs c)) then
    Ok (mkResource (cname c)
          (key_attr c, kwargs !!! key_attr c)
          ((λ a, (a, kwargs !!! a)) <$> other_attrs c))
  else Raise TypeError.

(** [Resource.from_json] *)
Definition Resource_from_json (subclasses : list Class)
    (json : gmap string value) : result Resource :=
  match json !! "kind" with
  | None => Raise (KeyError (VStr "kind"))
  | Some kind =>
      let json := delete "kind" json in
      match kind with
      | VStr k =>
          match _kind_classes subclasses !! k with
          | Some c => Class_call c json
          | None => Raise (KeyError kind)
          end
      | _ => Raise (KeyError kind)
      end
  end.

(** The structure returned by [Resources.to_json]. *)
Record ResourcesJson := mkResourcesJson {
  json_resources : list (gmap string value);
  json_managed : list string;
}.

Section serialisation.
Context (pattern_matches : string → string → bool).
Context (subclasses : list Class).

(** [Resources.to_json] *)
Definition to_json (self : Resources) : result ResourcesJson :=
  _ ← _verify pattern_matches self;
  Ok (mkResourcesJson (Resource_to_json <$> iter self) (managed self)).

(** [Resources.from_json] *)
Definition from_json (json : ResourcesJson) : result Resources :=
  rs ← mapM (Resource_from_json subclasses) (json_resources json);
  Resources_init pattern_matches rs (json_managed json).

End serialisation.

(** ** Text *)

Definition newline : ascii := ascii_of_nat 10.
Definition nl : string := String newline "".

(** Line boundaries of [str.splitlines]. *)
Definition is_linebreak (c : ascii) : bool :=
  bool_decide (nat_of_ascii c ∈ [10; 11; 12; 13; 28; 29; 30; 133]).

(** [str.isspace] on one character. *)
Definition is_space (c : ascii) : bool :=
  bool_decide (nat_of_ascii c ∈ [9; 10; 11; 12; 13; 28; 29; 30; 31; 32; 133; 160]).

(** [s.split('\n')] *)
Fixpoint split_nl (s : string) : list string :=
  match s with
  | EmptyString => [""]
  | String c s' =>
      if decide (c = newline) then "" :: split_nl s'
      else match split_nl s' with
           | [] => [String c ""]
           | l :: ls => String c l :: ls
           end
  end.

(** [s.splitlines(True)] *)
Fixpoint splitlines_keepends (s : string) : list string :=
  match s with
  | EmptyString => []
  | String c s' =>
      if is_linebreak c then
        match s' with
        | String c' s'' =>
            if decide (c = ascii_of_nat 13 ∧ c' = newline)
            then String c (String c' "") :: splitlines_keepends s''
            else String c "" :: splitlines_keepends s'
        | EmptyString => [String c ""]
        end
      else match splitlines_keepends s' with
           | [] => [String c ""]
           | l :: ls => String c l :: ls
           end
  end.

(** Truth of [line.strip()]: some character is not whitespace. *)
Fixpoint has_nonspace (s : string) : bool :=
  match s with
  | EmptyString => false
  | String c s' => negb (is_space c) || has_nonspace s'
  end.

(** [''.join(xs)] *)
Definition concat_str (xs : list string) : string :=
  foldr String.append "" xs.

(** [textwrap.indent(text, prefix)] *)
Definition indent (text prefix : string) : string :=
  concat_str ((λ line, if has_nonspace line then prefix +:+ line else line)
                <$> splitlines_keepends text).

(** [s.rstrip()] *)
Fixpoint rstrip (s : string) : string :=
  match s with
  | EmptyString => ""
  | String c s' =>
      match rstrip s' with
      | EmptyString => if is_space c then "" else String c ""
      | r => String c r
      end
  end.

(** ['\n' in s] *)
Fixpoint contains_newline (s : string) : bool :=
  match s with
  | EmptyString => false
  | String c s' => bool_decide (c = newline) || contains_newline s'
  end.

(** [l.index(x)] *)
Fixpoint list_index (x : string) (l : list string) : result nat :=
  match l with
  | [] => Raise ValueError
  | y :: l' => if decide (y = x) then Ok 0 else n ← list_index x l'; Ok (S n)
  end.

Definition is_digit (c : ascii) : bool :=
  bool_decide (48 ≤ nat_of_ascii c ≤ 57).

(** The longest prefix of characters satisfying [p], and the rest. *)
Fixpoint span (p : ascii → bool) (s : string) : string * string :=
  match s with
  | EmptyString => ("", "")
  | String c s' =>
      if p c then let '(a, b) := span p s' in (String c a, b) else ("", s)
  end.

(** [s] without the prefix [p], if it starts with it. *)
Fixpoint strip_prefix (p s : string) : option string :=
  match p, s with
  | EmptyString, _ => Some s
  | String a p', String b s' =>
      if decide (a = b) then strip_prefix p' s' else None
  | String _ _, EmptyString => None
  end.

(** [int(s)] for a string of ASCII digits; the empty string is refused. *)
Definition int (s : string) : result nat :=
  match s with
  | EmptyString => Raise ValueError
  | _ =>
      Ok ((fix go (s : string) (acc : nat) : nat :=
             match s with
             | EmptyString => acc
             | String c s' => go s' (10 * acc + (nat_of_ascii c - 48))
             end) s 0)
  end.

(** Group 1 of [context_re.match(s)]: the text starts with [@@ -], then
    the longest run of ASCII digits (the group), then a comma. *)
Definition context_re (s : string) : option string :=
  rest ← strip_prefix "@@ -" s;
  let '(digits, rest) := span is_digit rest in
  match rest with
  | String c _ => if decide (c = ","%char) then Some digits else None
  | EmptyString => None
  end.

(** Group 1 of [label_re.match(s)]: the text starts with two spaces, then
    a character other than a space, then everything up to a newline; the
    group starts at that third character. *)
Definition label_re (s : string) : option string :=
  match s with
  | String c1 (String c2 (String c3 rest)) =>
      if decide (c1 = " "%char ∧ c2 = " "%char ∧ c3 ≠ " "%char)
      then Some (String c3 (span (λ c, negb (bool_decide (c = newline))) rest).1)
      else None
  | _ => None
  end.

(** ** Rendering *)

(** The part of the module-level [blessings.Terminal()] that the code
    uses: three style sequences and three colouring functions. *)
Record Terminal := mkTerminal {
  underline : string;
  bold : string;
  normal : string;
  red : string → string;
  green : string → string;
  yellow : string → string;
}.

Section rendering.
Context (t : Terminal).
(** [a.metadata.get('formatter')] for the field [a] of a kind. *)
Context (formatter : string → string → option (value → string)).
Context (pattern_matches : string → string → bool).

(** First line of [Resource.__str__]. *)
Definition header (r : Resource) : string :=
  underline t +:+ id r +:+ normal t +:+ ":".

(** [Resource.__str__] *)
Definition Resource_str (r : Resource) : string :=
  let rv :=
    foldl (λ rv a,
             let label := "  " +:+ bold t +:+ a.1 +:+ normal t +:+ ":" in
             let formatted := default str (formatter (kind r) a.1) a.2 in
             if contains_newline formatted
             then rv ++ [label; indent formatted "    "]
             else rv ++ [label +:+ " " +:+ formatted])
          [header r] (fields r) in
  join nl rv.

(** [Resources.__str__] *)
Definition Resources_str (self : Resources) : result string :=
  _ ← _verify pattern_matches self;
  Ok ("managed:" +:+ nl
      +:+ join nl ((λ m, "  - " +:+ m) <$> managed self)
      +:+ nl +:+ nl +:+ "resources:" +:+ nl
      +:+ indent (join (nl +:+ nl) (Resource_str <$> iter self)) "  ").

End rendering.

(** ** Diffs *)

Section diff.
Context (t : Terminal).
Context (formatter : string → string → option (value → string)).
Context (pattern_matches : string → string → bool).
(** [strip_ansi] of [ciadmin/util.py], which is not part of the sources
    at hand. *)
Context (strip_ansi : string → string).
(** [difflib.unified_diff(a, b, fromfile, tofile, n, lineterm='')] *)
Context (unified_diff :
           list string → list string → string → string → nat → list string).

(** [{r.id: r for r in rs}] *)
Definition by_id (rs : list Resource) : gmap string Resource :=
  foldl (λ d r, <[id r := r]> d) ∅ rs.

(** [sorted(k for k in c if c[k] != g[k])] on the two [attr.asdict]
    dictionaries; the keys of [c] are its field names. *)
Definition changed_fields (c g : Resource) : result (list string) :=
  let c' := asdict c in
  let g' := asdict g in
  ks ← mapM (λ k,
               match c' !! k, g' !! k with
               | Some cv, Some gv => Ok (if decide (cv ≠ gv) then [k] else [])
               | _, _ => Raise (KeyError (VStr k))
               end)
            (field_names c);
  Ok (sorted (concat ks)).

(** The loop of [id_diff] over [all_resources], [rv] being the lines
    appended so far. *)
Fixpoint id_diff_loop (generated_resources current_resources
                         : gmap string Resource)
    (all_resources : list string) (rv : list string)
  : result (list string) :=
  match all_resources with
  | [] => Ok rv
  | i :: rest =>
      match generated_resources !! i with
      | Some g =>
          match current_resources !! i with
          | Some c =>
              if decide (c = g) then
                id_diff_loop generated_resources current_resources rest rv
              else
                fs ← (if decide (kind c = kind g) then changed_fields c g
                      else Ok ["kind"]);
                id_diff_loop generated_resources current_resources rest
                  (rv ++ [yellow t ("! " +:+ i +:+ " (changed: "
                                    +:+ join ", " fs +:+ ")")])
          | None =>
              id_diff_loop generated_resources current_resources rest
                (rv ++ [green t ("+ " +:+ i)])
          end
      | None =>
          id_diff_loop generated_resources current_resources rest
            (rv ++ [red t ("- " +:+ i)])
      end
  end.

(** [id_diff] *)
Definition id_diff (generated current : Resources) : result string :=
  let generated_resources := by_id (iter generated) in
  let current_resources := by_id (iter current) in
  let all_resources :=
    sorted (elements (dom generated_resources ∪ dom current_resources)) in
  rv ← id_diff_loop generated_resources current_resources all_resources [];
  Ok (join nl rv).

(** The [while] loop of [contextualize]. *)
Fixpoint scan_back (left : list string) (resources_start line : nat)
  : result string :=
  match line with
  | 0 => Ok ""
  | S line' =>
      if decide (resources_start < line) then
        match left !! line' with
        | None => Raise IndexError
        | Some l =>
            match label_re l with
            | Some group => Ok group
            | None => scan_back left resources_start line'
            end
        end
      else Ok ""
  end.

(** [contextualize], the closure of [textual_diff] and of
    [Resources.diff]. *)
Definition contextualize (left : list string) (resources_start : nat)
    (rangeInfo : string) : result string :=
  match context_re rangeInfo with
  | None => Ok ""
  | Some digits =>
      line ← int digits;
      scan_back left resources_start line
  end.

(** [colors[l[0]](l)] *)
Definition colorize (left : list string) (resources_start : nat)
    (l : string) : result string :=
  match l with
  | EmptyString => Raise IndexError
  | String c _ =>
      if decide (c = "-"%char) then Ok (red t (strip_ansi l))
      else if decide (c = "+"%char) then Ok (green t (strip_ansi l))
      else if decide (c = "@"%char) then
        label ← contextualize left resources_start l;
        Ok (yellow t (strip_ansi l) +:+ " " +:+ label)
      else if decide (c = " "%char) then Ok l
      else Raise (KeyError (VStr (String c "")))
  end.

(** The common body of [textual_diff] and [Resources.diff]: [left] is
    rendered from [other], [right] from [self]. *)
Definition diff_body (self other : Resources) (fromfile tofile : string)
    (n : nat) : result string :=
  l ← Resources_str t formatter pattern_matches other;
  let left := split_nl l in
  r ← Resources_str t formatter pattern_matches self;
  let right := split_nl r in
  resources_start ← list_index "resources:" left;
  let lines := unified_diff left right fromfile tofile n in
  lines ← mapM (λ line,
                  let l := if decide (line = "") then " " else line in
                  rstrip <$> colorize left resources_start l)
               lines;
  Ok (join nl lines).

(** [textual_diff] *)
Definition textual_diff (generated current : Resources) : result string :=
  diff_body generated current "current" "generated" 8.

(** [Resources.diff], its keyword arguments being those of
    [difflib.unified_diff]. *)
Definition Resources_diff (self other : Resources)
    (fromfile tofile : string) (n : nat) : result string :=
  diff_body self other fromfile tofile n.

End diff.

(** ** Sample data *)

(** A pattern language for the samples: ["*"] matches every id, any other
    pattern matches itself only. *)
Definition sample_matches (p s : string) : bool :=
  bool_decide (p = "*") || bool_decide (p = s).

(** A terminal that does no styling, as when the output is not a tty. *)
Definition plain_terminal : Terminal :=
  mkTerminal "" "" "" (λ s, s) (λ s, s) (λ s, s).

Definition no_formatter : string → string → option (value → string) :=
  λ _ _, None.

(** [class Worker(Resource)] with the fields [id] and [count]. *)
Definition Worker_class : Class := mkClass "Worker" "id" ["count"].

Definition Worker (i : string) (count : Z) : Resource :=
  mkResource "Worker" ("id", VStr i) [("count", VInt count)].

Definition sample_current : Resources :=
  mkResources [Worker "w1" 5] ["*"].

Definition sample_generated : Resources :=
  mkResources [Worker "w1" 3] ["*"].

(** What [difflib.unified_diff] returns for the renderings of
    [sample_current] and [sample_generated] on a plain terminal: one hunk
    that covers the seven lines of the rendering. *)
Definition sample_unified_diff
  : list string → list string → string → string → nat → list string :=
  λ _ _ _ _ _,
    ["--- current"; "+++ generated"; "@@ -1,7 +1,7 @@";
     " managed:"; "   - *"; " "; " resources:"; "   Worker=w1:";
     "     id: w1"; "-    count: 5"; "+    count: 3"].

(** ** Vocabulary of the statements *)

(** Order of two elements by their keys. *)
Definition key_le {A} (key : A → string) : relation A :=
  λ a b, String.le (key a) (key b).

(** The invariant of [SortedKeyList(key=lambda r: r.id)]. *)
Definition sorted_by_id (rs : list Resource) : Prop :=
  StronglySorted (key_le id) rs.

(** [c in s] for a character. *)
Fixpoint has_char (c : ascii) (s : string) : bool :=
  match s with
  | EmptyString => false
  | String c' s' => bool_decide (c' = c) || has_char c s'
  end.

(** The resource of a collection that has the id [i]: the one a dictionary
    keyed by id keeps, that is the last one in iteration order. *)
Definition resource_with_id (rs : list Resource) (i : string)
  : option Resource :=
  last (filter (λ r, id r = i) rs).


(** One line of the identity diff. *)
Inductive change :=
  | Added (i : string)
  | Removed (i : string)
  | Changed (i : string) (names : list string).








(** A line with exactly two leading spaces and then a character that is
    not a space; [label] is the line without the two spaces. *)
Definition two_space_line (l label : string) : Prop :=
  ∃ c rest, c ≠ " "%char ∧ l = String " " (String " " (String c rest))
            ∧ label = String c rest.

(** The context label of a hunk that starts at line [n] (counted from 1)
    of [left]: the nearest two-space line at index [j], [start ≤ j < n],
    scanning backward from index [n - 1]; empty if there is none. *)
Definition context_label (left : list string) (start n : nat)
    (label : string) : Prop :=
  (∃ j l, start ≤ j < n ∧ left !! j = Some l ∧ two_space_line l label
          ∧ ∀ k l', j < k < n → left !! k = Some l' →
                    ¬ ∃ label', two_space_line l' label')
  ∨ (label = ""
     ∧ ∀ k l', start ≤ k < n → left !! k = Some l' →
               ¬ ∃ label', two_space_line l' label').

(** Some character of [s] is a line boundary of [str.splitlines]. *)
Fixpoint has_linebreak (s : string) : bool :=
  match s with
  | EmptyString => false
  | String c s' => is_linebreak c || has_linebreak s'
  end.

(** A hunk-range line [@@ -n,...] of a unified diff. *)
Definition hunk_range (d : string) (n : nat) : Prop :=
  ∃ digits rest,
    d = "@@ -" +:+ digits +:+ "," +:+ rest
    ∧ digits ≠ ""
    ∧ span is_digit digits = (digits, "")
    ∧ int digits = Ok n.

(** The lines of a unified diff as [difflib] writes them, [left] being
    the rendering they refer to: an empty line, a line that starts with
    [-], [+] or a space, or a line that starts with [@] and either is not
    of the form [@@ -digits,...] or is a hunk-range line whose number is
    a line of [left]. *)
Definition diff_line_ok (left : list string) (l : string) : Prop :=
  l = ""
  ∨ (∃ c rest, l = String c rest
               ∧ (c = "-"%char ∨ c = "+"%char ∨ c = " "%char))
  ∨ (∃ rest, l = String "@"%char rest
             ∧ (context_re l = None
                ∨ ∃ n, hunk_range l n ∧ n ≤ length left)).

(** ** [evolve] and [show_diff] *)

(** The class of an instance. *)
Definition class_of (r : Resource) : Class :=
  mkClass (kind r) (key_field r).1 (other_fields r).*1.

(** [Resource.evolve]: [attr.evolve] fills in, for every field that [args]
    does not name, the value the instance has, and calls the class with
    the result.  As for [Class_call], the keywords are the field names. *)
Definition evolve (r : Resource) (args : gmap string value)
  : result Resource :=
  Class_call (class_of r) (args ∪ asdict r).

Section show_diff.
Context (t : Terminal).
Context (formatter : string → string → option (value → string)).
Context (pattern_matches : string → string → bool).
Context (strip_ansi : string → string).
Context (unified_diff :
           list string → list string → string → string → nat → list string).
(** [re.compile(pattern)], which raises on a malformed pattern, followed
    by the [search] of the compiled expression, as a truth value. *)
Context (re_compile : string → result (string → bool)).

(** The [--grep] step of [show_diff] on one collection. *)
Definition grep_resources (reg : string → bool) (c : Resources)
  : result Resources :=
  Resources_init pattern_matches
    (filter (λ r, reg (id r) = true) (resources c)) (managed c).

(** The [--ignore-descriptions] step of [show_diff] on one collection. *)
Definition reset_descriptions (c : Resources) : result Resources :=
  rs ← mapM (λ r, evolve r {["description" := VStr ""]}) (resources c);
  Resources_init pattern_matches rs (managed c).

(** [show_diff]; the result is the text that is printed.  [grep] is
    [None] when the option is not given. *)
Definition show_diff (generated current : Resources)
    (ignore_descriptions : bool) (grep : option string) (ids_only : bool)
  : result string :=
  p ← match grep with
      | Some pattern =>
          if decide (pattern = "") then Ok (generated, current)
          else
            reg ← re_compile pattern;
            generated ← grep_resources reg generated;
            current ← grep_resources reg current;
            Ok (generated, current)
      | None => Ok (generated, current)
      end;
  p ← (if ignore_descriptions then
         generated ← reset_descriptions p.1;
         current ← reset_descriptions p.2;
         Ok (generated, current)
       else Ok p);
  if ids_only then id_diff t p.1 p.2
  else textual_diff t formatter pattern_matches strip_ansi unified_diff
         p.1 p.2.

End show_diff.

(** The resource with its [description] field, if it has one besides the
    primary key, set to the empty string. *)
Definition blank_description (r : Resource) : Resource :=
  mkResource (kind r) (key_field r)
    ((λ f, if decide (f.1 = "description") then (f.1, VStr "") else f)
       <$> other_fields r).

(** [class Role(Resource)] with the fields [roleId] and [description]. *)
Definition Role (i description : string) : Resource :=
  mkResource "Role" ("roleId", VStr i) [("description", VStr description)].

(** [re.compile] on patterns without special characters: the search
    succeeds when the pattern occurs in the text. *)
Definition sample_re_compile (pattern : string) : result (string → bool) :=
  Ok (λ s, bool_decide (is_Some (String.index 0 pattern s))).
(** * Lemmas *)

Section sorting.
Context {A : Type} (key : A → string).

#[local] Instance key_le_trans : Transitive (key_le key).
Proof. intros a b c; unfold key_le; apply transitivity. Qed.

Lemma key_le_total a b : key_le key a b ∨ key_le key b a.
Proof. unfold key_le. destruct (total String.le (key a) (key b)); auto. Qed.

Lemma insort_perm x l : insort key x l ≡ₚ x :: l.
Proof.
  induction l as [|y l IH]; simpl; [done|].
  case_bool_decide; [|done].
  rewrite IH. apply Permutation_swap.
Qed.

Lemma insort_sorted x l :
  StronglySorted (key_le key) l → StronglySorted (key_le key) (insort key x l).
Proof.
  induction 1 as [|y l Hl IH Hy]; simpl.
  - repeat constructor.
  - case_bool_decide as Hle.
    + constructor; [done|].
      rewrite insort_perm. constructor; [done|done].
    + assert (key_le key x y) by (destruct (key_le_total x y); done).
      constructor; [by constructor|].
      constructor; [done|].
      eapply Forall_impl; [done|]. intros z ?. by etrans.
Qed.

(** The new element lands between two parts of the old list. *)
Lemma insort_split x l :
  ∃ l1 l2, l = l1 ++ l2 ∧ insort key x l = l1 ++ x :: l2.
Proof.
  induction l as [|y l (l1 & l2 & -> & IH)]; simpl.
  - by exists [], [].
  - case_bool_decide.
    + exists (y :: l1), l2. by rewrite IH.
    + by exists [], (y :: l1 ++ l2).
Qed.

(** An element not smaller than all others is appended. *)
Lemma insort_last x l :
  Forall (λ y, key_le key y x) l → insort key x l = l ++ [x].
Proof.
  induction 1 as [|y l Hy _ IH]; simpl; [done|].
  rewrite bool_decide_eq_true_2 by done. by rewrite IH.
Qed.

Lemma foldl_insort_perm acc l :
  foldl (λ acc x, insort key x acc) acc l ≡ₚ acc ++ l.
Proof.
  revert acc. induction l as [|x l IH]; intros acc; simpl.
  - by rewrite app_nil_r.
  - rewrite IH, insort_perm. simpl. apply Permutation_middle.
Qed.

Lemma sorted_by_perm l : sorted_by key l ≡ₚ l.
Proof. apply foldl_insort_perm. Qed.

Lemma sorted_by_sorted l : StronglySorted (key_le key) (sorted_by key l).
Proof.
  unfold sorted_by.
  cut (∀ acc, StronglySorted (key_le key) acc →
              StronglySorted (key_le key)
                (foldl (λ acc x, insort key x acc) acc l)).
  { intros H. apply H. constructor. }
  induction l as [|x l IH]; intros acc Hacc; simpl; [done|].
  apply IH. by apply insort_sorted.
Qed.

(** Sorting a sorted list changes nothing. *)
Lemma sorted_by_id_sorted l :
  StronglySorted (key_le key) l → sorted_by key l = l.
Proof.
  unfold sorted_by.
  cut (∀ acc, StronglySorted (key_le key) (acc ++ l) →
              foldl (λ acc x, insort key x acc) acc l = acc ++ l).
  { intros H Hl. by apply (H []). }
  induction l as [|x l IH]; intros acc Hs; simpl.
  - by rewrite app_nil_r.
  - rewrite insort_last.
    + rewrite IH; rewrite <- app_assoc; done.
    + apply Forall_forall. intros y Hy.
      apply (StronglySorted_app_1_elem_of _ _ _ _ _ Hs Hy). by left.
Qed.

Lemma sorted_by_snoc l x :
  sorted_by key (l ++ [x]) = insort key x (sorted_by key l).
Proof. unfold sorted_by. by rewrite foldl_app. Qed.

Lemma key_sorted_fmap l :
  StronglySorted (key_le key) l ↔ StronglySorted String.le (key <$> l).
Proof.
  induction l as [|x l IH]; simpl.
  - split; constructor.
  - split; inversion_clear 1; constructor; try (by apply IH).
    + rewrite Forall_fmap. done.
    + rewrite Forall_fmap in *. done.
Qed.
End sorting.

Section strings_order.
Lemma sorted_sorted l : StronglySorted String.le (sorted l).
Proof. apply (sorted_by_sorted (λ s : string, s)). Qed.

Lemma sorted_perm l : sorted l ≡ₚ l.
Proof. apply sorted_by_perm. Qed.

Lemma elem_of_sorted x l : x ∈ sorted l ↔ x ∈ l.
Proof. by rewrite sorted_perm. Qed.

Lemma sorted_nil_inv l : sorted l = [] → l = [].
Proof.
  intros H. apply Permutation_nil_r. rewrite <- H. symmetry. apply sorted_perm.
Qed.

Lemma strictly_sorted l :
  StronglySorted String.le l → NoDup l → StronglySorted str_lt l.
Proof.
  induction 1 as [|x l Hl IH Hx]; intros Hnd; [constructor|].
  apply NoDup_cons in Hnd as [Hx' Hnd].
  constructor; [by apply IH|].
  apply Forall_forall. intros y Hy.
  rewrite Forall_forall in Hx. apply strict_spec_alt.
  split; [by apply Hx|]. intros ->. done.
Qed.

Lemma strictly_sorted_NoDup l : StronglySorted str_lt l → NoDup l.
Proof.
  induction 1 as [|x l Hl IH Hx]; [constructor|].
  apply NoDup_cons. split; [|done].
  intros Hin. rewrite Forall_forall in Hx.
  apply Hx in Hin. apply strict_spec_alt in Hin as [_ ?]. done.
Qed.

Lemma strictly_sorted_le l : StronglySorted str_lt l → StronglySorted String.le l.
Proof.
  induction 1 as [|x l Hl IH Hx]; constructor; [done|].
  eapply Forall_impl; [done|]. intros y [? _]. done.
Qed.

Lemma sorted_strict l : NoDup l → StronglySorted str_lt (sorted l).
Proof.
  intros Hnd. apply strictly_sorted; [apply sorted_sorted|].
  by rewrite sorted_perm.
Qed.
End strings_order.

Section occurrences.
Lemma occurrences_cons x y l :
  occurrences x (y :: l) = (if decide (x = y) then 1 else 0) + occurrences x l.
Proof.
  unfold occurrences. rewrite filter_cons. by case_decide.
Qed.

Lemma occurrences_pos x l : x ∈ l ↔ 1 ≤ occurrences x l.
Proof.
  induction l as [|y l IH].
  - split; [by intros ?%elem_of_nil|]. unfold occurrences. simpl. lia.
  - rewrite occurrences_cons, elem_of_cons, IH.
    case_decide; [|intuition lia]. split; [lia|]. by left.
Qed.

Lemma occurrences_perm x l l' : l ≡ₚ l' → occurrences x l = occurrences x l'.
Proof. intros H. unfold occurrences. by rewrite H. Qed.

Lemma NoDup_occurrences l : NoDup l ↔ ∀ x, occurrences x l ≤ 1.
Proof.
  induction l as [|y l IH].
  - split; [|constructor]. intros _ x. unfold occurrences. simpl. lia.
  - rewrite NoDup_cons, IH. split.
    + intros [Hy H] x. rewrite occurrences_cons.
      case_decide as Hx; [subst|apply H].
      rewrite occurrences_pos in Hy. lia.
    + intros H. split.
      * intros Hy%occurrences_pos. specialize (H y).
        rewrite occurrences_cons in H. rewrite decide_True in H by done. lia.
      * intros x. specialize (H x). rewrite occurrences_cons in H. lia.
Qed.

Lemma repeated_exists l : ¬ NoDup l → ∃ x, 2 ≤ occurrences x l.
Proof.
  induction l as [|y l IH]; intros Hnd.
  - destruct Hnd. constructor.
  - destruct (decide (y ∈ l)) as [Hy|Hy].
    + exists y. rewrite occurrences_cons, decide_True by done.
      apply occurrences_pos in Hy. lia.
    + destruct IH as [x Hx].
      * intros H. apply Hnd. by constructor.
      * exists x. rewrite occurrences_cons. lia.
Qed.
End occurrences.

Section verify.
Context (pattern_matches : string → string → bool).

Lemma dupes_from_cons prev a l :
  omap (λ p : option string * string,
          if decide (p.1 = Some p.2) then p.1 else None)
       (zip (prev :: (Some <$> a :: l)) (a :: l))
  = (if decide (prev = Some a) then [a] else [])
    ++ omap (λ p : option string * string,
               if decide (p.1 = Some p.2) then p.1 else None)
            (zip (Some a :: (Some <$> l)) l).
Proof.
  simpl. case_decide as H; simpl in H; [by subst|done].
Qed.

Lemma dupes_from_spec ids prev x :
  StronglySorted String.le ids →
  (∀ p, prev = Some p → Forall (String.le p) ids) →
  x ∈ omap (λ p : option string * string,
              if decide (p.1 = Some p.2) then p.1 else None)
           (zip (prev :: (Some <$> ids)) ids)
  ↔ (prev = Some x ∧ x ∈ ids) ∨ 2 ≤ occurrences x ids.
Proof.
  intros Hs. revert prev.
  induction Hs as [|a l Hl IH Ha]; intros prev Hprev.
  - simpl. unfold occurrences. simpl.
    split; [by intros ?%elem_of_nil|].
    intros [[_ ?%elem_of_nil]|?]; [done|lia].
  - rewrite dupes_from_cons, elem_of_app, occurrences_cons.
    rewrite (IH (Some a)) by (by intros p [= <-]). clear IH.
    rewrite Forall_forall in Ha.
    split.
    + intros [Hx|[[[= ->] Hx]|Hx]].
      * case_decide; [|by apply elem_of_nil in Hx].
        apply list_elem_of_singleton in Hx. subst.
        left. split; [done|]. by left.
      * right. rewrite decide_True by done.
        apply occurrences_pos in Hx. lia.
      * right. lia.
    + intros [[-> Hx]|Hx].
      * apply elem_of_cons in Hx as [->|Hx].
        { left. rewrite decide_True by done. by left. }
        specialize (Hprev x eq_refl).
        apply Forall_cons in Hprev as [Hxa _].
        assert (a = x) as -> by (apply (anti_symm String.le); auto).
        left. rewrite decide_True by done. by left.
      * right. case_decide; [subst|right; lia].
        left. split; [done|]. apply occurrences_pos. lia.
Qed.

Lemma adjacent_dupes_spec ids x :
  StronglySorted String.le ids →
  x ∈ adjacent_dupes ids ↔ 2 ≤ occurrences x ids.
Proof.
  intros Hs. unfold adjacent_dupes.
  rewrite dupes_from_spec; [|done|done].
  split; [by intros [[? _]|?]|by right].
Qed.

Lemma adjacent_dupes_nil ids :
  StronglySorted String.le ids → adjacent_dupes ids = [] ↔ NoDup ids.
Proof.
  intros Hs. rewrite NoDup_occurrences. split.
  - intros Hnil x. destruct (decide (2 ≤ occurrences x ids)) as [H|H]; [|lia].
    apply adjacent_dupes_spec in H; [|done]. rewrite Hnil in H.
    by apply elem_of_nil in H.
  - intros H. destruct (adjacent_dupes ids) as [|x l] eqn:E; [done|].
    assert (x ∈ adjacent_dupes ids) as Hx by (rewrite E; by left).
    apply adjacent_dupes_spec in Hx; [|done]. specialize (H x). lia.
Qed.

Lemma ids_sorted rs :
  sorted_by_id rs → StronglySorted String.le (id <$> rs).
Proof. apply key_sorted_fmap. Qed.

(** Outcome of the verification when an id is repeated. *)
Lemma _verify_duplicates self :
  sorted_by_id (resources self) →
  ¬ NoDup (id <$> resources self) →
  ∃ dups,
    dups ≠ [] ∧ StronglySorted str_lt dups
    ∧ (∀ x, x ∈ dups ↔ 2 ≤ occurrences x (id <$> resources self))
    ∧ _verify pattern_matches self
      = Raise (RuntimeError ("duplicate resources: " +:+ join ", " dups)).
Proof.
  intros Hs%ids_sorted Hnd. unfold _verify.
  set (dupes := adjacent_dupes (id <$> resources self)).
  exists (sorted (elements (list_to_set dupes : gset string))).
  assert (∀ x, x ∈ sorted (elements (list_to_set dupes : gset string))
               ↔ 2 ≤ occurrences x (id <$> resources self)) as Hmem.
  { intros x. rewrite elem_of_sorted, elem_of_elements, elem_of_list_to_set.
    by apply adjacent_dupes_spec. }
  split_and!.
  - apply repeated_exists in Hnd as [x Hx]. apply Hmem in Hx.
    intros E. rewrite E in Hx. by apply elem_of_nil in Hx.
  - apply sorted_strict, NoDup_elements.
  - done.
  - rewrite decide_True; [done|].
    intros E. apply Hnd. by apply adjacent_dupes_nil.
Qed.

(** Outcome of the verification when ids are distinct. *)
Lemma _verify_distinct self :
  sorted_by_id (resources self) →
  NoDup (id <$> resources self) →
  let unmanaged :=
    sorted (id <$> filter (λ r, is_managed pattern_matches self (id r) = false)
                      (resources self)) in
  _verify pattern_matches self
  = if decide (unmanaged ≠ []) then
      Raise (RuntimeError ("unmanaged resources: " +:+ join ", " unmanaged))
    else Ok ().
Proof.
  intros Hs%ids_sorted Hnd. unfold _verify.
  rewrite decide_False; [done|].
  intros H. apply H. by apply adjacent_dupes_nil.
Qed.

Lemma _verify_ok self :
  sorted_by_id (resources self) →
  _verify pattern_matches self = Ok ()
  ↔ NoDup (id <$> resources self)
    ∧ Forall (λ r, is_managed pattern_matches self (id r) = true)
             (resources self).
Proof.
  intros Hs. split.
  - intros Hv. destruct (decide (NoDup (id <$> resources self))) as [Hnd|Hnd].
    + split; [done|]. rewrite _verify_distinct in Hv by done.
      case_decide as Hu; [done|].
      apply sorted_nil_inv, fmap_nil_inv in Hu.
      apply Forall_forall. intros r Hr.
      destruct (is_managed pattern_matches self (id r)) eqn:E; [done|].
      assert (r ∈ filter (λ r, is_managed pattern_matches self (id r) = false)
                (resources self)) as Hin by (by apply list_elem_of_filter).
      rewrite Hu in Hin. by apply elem_of_nil in Hin.
    + destruct (_verify_duplicates self Hs Hnd) as (? & _ & _ & _ & E).
      congruence.
  - intros [Hnd Hm]. rewrite _verify_distinct by done.
    rewrite decide_False; [done|]. intros H. apply H.
    clear Hs Hnd H. revert Hm. generalize (resources self). intros l Hm.
    assert (filter (λ r, is_managed pattern_matches self (id r) = false) l
            = []) as ->; [|done].
    induction Hm as [|r l Hr _ IH]; [done|].
    rewrite filter_cons, decide_False by congruence. done.
Qed.
End verify.

Section dictionaries.
Context (t : Terminal).

Lemma last_cons_alt {A} (x : A) l :
  last (x :: l) = match last l with Some y => Some y | None => Some x end.
Proof.
  destruct l as [|a l]; [done|].
  change (last (x :: a :: l)) with (last (a :: l)).
  destruct (last (a :: l)) eqn:E; [done|]. by apply last_None in E.
Qed.

Lemma resource_with_id_cons r rs i :
  resource_with_id (r :: rs) i
  = match resource_with_id rs i with
    | Some x => Some x
    | None => if decide (id r = i) then Some r else None
    end.
Proof.
  unfold resource_with_id. rewrite filter_cons.
  case_decide; [by rewrite last_cons_alt|].
  by destruct (last _).
Qed.

Lemma resource_with_id_Some rs i r :
  resource_with_id rs i = Some r → r ∈ rs ∧ id r = i.
Proof.
  unfold resource_with_id. intros H%last_Some_elem_of.
  by apply list_elem_of_filter in H as [? ?].
Qed.


Lemma by_id_lookup rs i : by_id rs !! i = resource_with_id rs i.
Proof.
  unfold by_id.
  cut (∀ d : gmap string Resource,
         foldl (λ d r, <[id r := r]> d) d rs !! i
         = match resource_with_id rs i with
           | Some x => Some x
           | None => d !! i
           end).
  { intros H. rewrite H. by destruct (resource_with_id rs i). }
  induction rs as [|r rs IH]; intros d; simpl; [done|].
  rewrite IH, resource_with_id_cons.
  destruct (resource_with_id rs i); [done|].
  case_decide; [subst; by rewrite lookup_insert_eq|].
  by rewrite lookup_insert_ne.
Qed.



End dictionaries.

(** * Construction, verification and [add] *)

Section collection_theorems.
Context (t : Terminal).
Context (formatter : string → string → option (value → string)).
Context (pattern_matches : string → string → bool).
Context (strip_ansi : string → string).
Context (unified_diff :
           list string → list string → string → string → nat → list string).

Lemma verification_error self e :
  _verify pattern_matches self = Raise e →
  to_json pattern_matches self = Raise e
  ∧ Resources_str t formatter pattern_matches self = Raise e
  ∧ (∀ other fromfile tofile n,
       Resources_diff t formatter pattern_matches strip_ansi unified_diff
         other self fromfile tofile n = Raise e)
  ∧ (∀ other fromfile tofile n,
       _verify pattern_matches other = Ok () →
       Resources_diff t formatter pattern_matches strip_ansi unified_diff
         self other fromfile tofile n = Raise e)
  ∧ (∀ other,
       textual_diff t formatter pattern_matches strip_ansi unified_diff
         other self = Raise e)
  ∧ (∀ other,
       _verify pattern_matches other = Ok () →
       textual_diff t formatter pattern_matches strip_ansi unified_diff
         self other = Raise e).
Proof.
  intros Hv.
  assert (Resources_str t formatter pattern_matches self = Raise e) as Hstr.
  { unfold Resources_str. by rewrite Hv. }
  split_and!.
  - unfold to_json. by rewrite Hv.
  - done.
  - intros. unfold Resources_diff, diff_body. by rewrite Hstr.
  - intros other ??? Ho. unfold Resources_diff, diff_body.
    destruct (Resources_str t formatter pattern_matches other) eqn:E;
      simpl; [by rewrite Hstr|].
    unfold Resources_str in E. by rewrite Ho in E.
  - intros. unfold textual_diff, diff_body. by rewrite Hstr.
  - intros other Ho. unfold textual_diff, diff_body.
    destruct (Resources_str t formatter pattern_matches other) eqn:E;
      simpl; [by rewrite Hstr|].
    unfold Resources_str in E. by rewrite Ho in E.
Qed.

(** C3.  Whenever the resources given to the constructor repeat an id,
    construction raises [RuntimeError] with the message
    ["duplicate resources: "] followed by the comma-separated list of
    the ids that occur at least twice, each once and in strictly
    ascending order; and so does every later [_verify], [to_json] or
    [__str__] of a collection holding these resources. *)
Theorem duplicate_ids_rejected (rs : list Resource) (ms : list string) :
  ¬ NoDup (id <$> rs) →
  ∃ dups,
    dups ≠ [] ∧ StronglySorted str_lt dups
    ∧ (∀ x, x ∈ dups ↔ 2 ≤ occurrences x (id <$> rs))
    ∧ Resources_init pattern_matches rs ms
      = Raise (RuntimeError ("duplicate resources: " +:+ join ", " dups))
    ∧ ∀ self,
        resources self = sorted_by id rs →
        _verify pattern_matches self
        = Raise (RuntimeError ("duplicate resources: " +:+ join ", " dups))
        ∧ to_json pattern_matches self
          = Raise (RuntimeError ("duplicate resources: " +:+ join ", " dups))
        ∧ Resources_str t formatter pattern_matches self
          = Raise (RuntimeError ("duplicate resources: " +:+ join ", " dups)).
Proof.
  intros Hnd.
  set (dups := sorted (elements (list_to_set
                 (adjacent_dupes (id <$> sorted_by id rs)) : gset string))).
  assert (∀ self, resources self = sorted_by id rs →
            dups ≠ [] ∧ StronglySorted str_lt dups
            ∧ (∀ x, x ∈ dups ↔ 2 ≤ occurrences x (id <$> rs))
            ∧ _verify pattern_matches self
              = Raise (RuntimeError
                         ("duplicate resources: " +:+ join ", " dups)))
    as Hall.
  { intros self Hself.
    assert (id <$> resources self ≡ₚ id <$> rs) as Hp
        by (by rewrite Hself, sorted_by_perm).
    assert (adjacent_dupes (id <$> resources self) ≠ []) as Hne.
    { rewrite adjacent_dupes_nil.
      - by rewrite Hp.
      - apply ids_sorted. rewrite Hself. apply sorted_by_sorted. }
    assert (∀ x, x ∈ dups ↔ 2 ≤ occurrences x (id <$> rs)) as Hmem.
    { intros x. unfold dups.
      rewrite elem_of_sorted, elem_of_elements, elem_of_list_to_set.
      rewrite adjacent_dupes_spec
        by (apply ids_sorted, sorted_by_sorted).
      by rewrite (occurrences_perm x _ (id <$> rs))
        by (by rewrite sorted_by_perm). }
    split_and!.
    - destruct (repeated_exists _ Hnd) as [x Hx]. apply Hmem in Hx.
      intros E. rewrite E in Hx. by apply elem_of_nil in Hx.
    - apply sorted_strict, NoDup_elements.
    - done.
    - unfold _verify. rewrite decide_True by done.
      unfold dups. by rewrite Hself. }
  exists dups.
  destruct (Hall (mkResources (sorted_by id rs) ms) eq_refl)
    as (H1 & H2 & H3 & H4).
  split_and!; try done.
  - unfold Resources_init. by rewrite H4.
  - intros self Hself. destruct (Hall self Hself) as (_ & _ & _ & Hv).
    split; [done|].
    destruct (verification_error self _ Hv) as (? & ? & _). done.
Qed.

(** C4.  When the ids are distinct and some id matches no managed
    pattern, construction raises [RuntimeError] with the message
    ["unmanaged resources: "] followed by the comma-separated ids that
    match no pattern, in strictly ascending order; and whenever
    construction succeeds, every resource id matches a pattern. *)
Theorem unmanaged_ids_rejected (rs : list Resource) (ms : list string) :
  (NoDup (id <$> rs) →
   (∃ r, r ∈ rs ∧ matches pattern_matches ms (id r) = false) →
   ∃ unmanaged,
     unmanaged ≠ [] ∧ StronglySorted str_lt unmanaged
     ∧ (∀ x, x ∈ unmanaged
             ↔ x ∈ id <$> rs ∧ matches pattern_matches ms x = false)
     ∧ Resources_init pattern_matches rs ms
       = Raise (RuntimeError
                  ("unmanaged resources: " +:+ join ", " unmanaged)))
  ∧ (∀ self,
       Resources_init pattern_matches rs ms = Ok self →
       ∀ r, r ∈ rs → matches pattern_matches ms (id r) = true).
Proof.
  set (self := mkResources (sorted_by id rs) ms).
  assert (sorted_by_id (resources self)) as Hs by apply sorted_by_sorted.
  split.
  - intros Hnd (r & Hr & Hm).
    assert (NoDup (id <$> resources self)) as Hnd'
        by (simpl; by rewrite sorted_by_perm).
    pose proof (_verify_distinct pattern_matches self Hs Hnd') as Hv.
    simpl in Hv.
    set (unmanaged := sorted (id <$> filter
           (λ r, is_managed pattern_matches self (id r) = false)
           (sorted_by id rs))) in *.
    assert (∀ x, x ∈ unmanaged
                 ↔ x ∈ id <$> rs ∧ matches pattern_matches ms x = false)
      as Hmem.
    { intros x. unfold unmanaged.
      rewrite elem_of_sorted, !list_elem_of_fmap. split.
      - intros (r' & -> & [Hm' Hr']%list_elem_of_filter).
        rewrite sorted_by_perm in Hr'. split; [by exists r'|done].
      - intros [(r' & -> & Hr') Hm']. exists r'. split; [done|].
        apply list_elem_of_filter. split; [done|].
        by rewrite sorted_by_perm. }
    assert (unmanaged ≠ []) as Hne.
    { intros E. assert (id r ∈ unmanaged) as Hin.
      { apply Hmem. split; [|done]. apply list_elem_of_fmap. by exists r. }
      rewrite E in Hin. by apply elem_of_nil in Hin. }
    exists unmanaged. split_and!; [done| |done|].
    + apply sorted_strict.
      eapply sublist_NoDup; [exact Hnd'|].
      apply fmap_sublist, sublist_filter.
    + unfold Resources_init. fold self. rewrite Hv.
      by rewrite decide_True.
  - intros self' Hinit r Hr.
    unfold Resources_init in Hinit. fold self in Hinit.
    destruct (_verify pattern_matches self) as [[]|] eqn:Hv; [|done].
    apply _verify_ok in Hv as [_ Hm]; [|done].
    rewrite Forall_forall in Hm. apply Hm. simpl.
    by rewrite sorted_by_perm.
Qed.

(** C7, as amended.  A collection that passes verification iterates in
    strictly ascending order of ids, and so does every collection the
    constructor returns.  [add] keeps the iteration order ascending, and
    strictly ascending when the added id was not there before. *)
Theorem iteration_order (self : Resources) (r : Resource) :
  (sorted_by_id (resources self) →
   _verify pattern_matches self = Ok () →
   StronglySorted str_lt (id <$> iter self))
  ∧ (∀ rs ms c,
       Resources_init pattern_matches rs ms = Ok c →
       StronglySorted str_lt (id <$> iter c))
  ∧ (∀ self',
       add pattern_matches self r = (Ok (), self') →
       (StronglySorted String.le (id <$> iter self) →
        StronglySorted String.le (id <$> iter self'))
       ∧ (StronglySorted str_lt (id <$> iter self) →
          id r ∉ id <$> iter self →
          StronglySorted str_lt (id <$> iter self'))).
Proof.
  assert (∀ c, sorted_by_id (resources c) →
               _verify pattern_matches c = Ok () →
               StronglySorted str_lt (id <$> iter c)) as Hver.
  { intros c Hs Hv. apply _verify_ok in Hv as [Hnd _]; [|done].
    apply strictly_sorted; [by apply ids_sorted|done]. }
  split_and!.
  - apply Hver.
  - intros rs ms c Hinit. unfold Resources_init in Hinit.
    destruct (_verify pattern_matches _) as [[]|] eqn:Hv; [|done].
    injection Hinit as <-. apply Hver; [apply sorted_by_sorted|done].
  - intros self' Hadd. unfold add in Hadd.
    destruct (is_managed pattern_matches self (id r)); [|done].
    injection Hadd as <-. unfold iter. simpl.
    assert (StronglySorted String.le (id <$> resources self) →
            StronglySorted String.le
              (id <$> insort id r (resources self))) as Hle.
    { intros Hs. apply (proj1 (key_sorted_fmap id _)), insort_sorted.
      by apply (proj2 (key_sorted_fmap id _)). }
    split; [done|].
    intros Hs Hnew. apply strictly_sorted.
    + by apply Hle, strictly_sorted_le.
    + rewrite insort_perm, fmap_cons. apply NoDup_cons.
      split; [done|]. by apply strictly_sorted_NoDup.
Qed.

(** C8.  [add] raises [RuntimeError("unmanaged resource: <id>")] and
    leaves the collection as it was exactly when the id of the resource
    matches no managed pattern; otherwise it returns normally, the
    resource has been inserted among the others, which keep their
    order, the list is still sorted by id, and [managed] is as
    before. *)
Theorem add_managed_only (self : Resources) (r : Resource) :
  (is_managed pattern_matches self (id r) = false
   ↔ add pattern_matches self r
     = (Raise (RuntimeError ("unmanaged resource: " +:+ id r)), self))
  ∧ (is_managed pattern_matches self (id r) = false
     ↔ ∃ e, (add pattern_matches self r).1 = Raise e)
  ∧ (is_managed pattern_matches self (id r) = true →
     ∃ self' l1 l2,
       add pattern_matches self r = (Ok (), self')
       ∧ managed self' = managed self
       ∧ resources self = l1 ++ l2
       ∧ resources self' = l1 ++ r :: l2
       ∧ (sorted_by_id (resources self) → sorted_by_id (resources self'))).
Proof.
  unfold add.
  destruct (is_managed pattern_matches self (id r)) eqn:Hm.
  - split_and!.
    + split; intros; done.
    + split; [done|]. by intros [e ?].
    + intros _.
      destruct (insort_split id r (resources self)) as (l1 & l2 & H1 & H2).
      eexists _, l1, l2. split_and!; [done|done|done|done|].
      simpl. apply insort_sorted.
  - split_and!; [done| |done].
    split; [|done]. intros _. by eexists.
Qed.

Lemma singleton_by_members (l : list string) a :
  NoDup l → (∀ x, x ∈ l ↔ x = a) → l = [a].
Proof.
  intros Hnd Hmem. destruct l as [|x l].
  - assert (a ∈ @nil string) as H by (by apply Hmem).
    by apply elem_of_nil in H.
  - assert (x = a) as -> by (apply Hmem; by left).
    destruct l as [|y l]; [done|].
    assert (y = a) as -> by (apply Hmem; right; by left).
    apply NoDup_cons in Hnd as [Hnd _]. destruct Hnd. by left.
Qed.

(** C10.  [add] does not look for duplicates: adding to a verified
    collection a resource whose id is managed and already present
    returns normally, after which the id occurs twice; the next
    [_verify], [to_json], [__str__], [Resources.diff] or [textual_diff]
    raises [RuntimeError("duplicate resources: <id>")]. *)
Theorem add_accepts_duplicate (self : Resources) (r : Resource) :
  sorted_by_id (resources self) →
  _verify pattern_matches self = Ok () →
  is_managed pattern_matches self (id r) = true →
  id r ∈ id <$> iter self →
  ∃ self',
    add pattern_matches self r = (Ok (), self')
    ∧ occurrences (id r) (id <$> iter self') = 2
    ∧ let err := RuntimeError ("duplicate resources: " +:+ id r) in
      _verify pattern_matches self' = Raise err
      ∧ to_json pattern_matches self' = Raise err
      ∧ Resources_str t formatter pattern_matches self' = Raise err
      ∧ (∀ other fromfile tofile n,
           Resources_diff t formatter pattern_matches strip_ansi
             unified_diff other self' fromfile tofile n = Raise err)
      ∧ (∀ other fromfile tofile n,
           _verify pattern_matches other = Ok () →
           Resources_diff t formatter pattern_matches strip_ansi
             unified_diff self' other fromfile tofile n = Raise err)
      ∧ (∀ other,
           textual_diff t formatter pattern_matches strip_ansi
             unified_diff other self' = Raise err)
      ∧ (∀ other,
           _verify pattern_matches other = Ok () →
           textual_diff t formatter pattern_matches strip_ansi
             unified_diff self' other = Raise err).
Proof.
  intros Hs Hv Hm Hin. unfold iter in *.
  apply _verify_ok in Hv as [Hnd _]; [|done].
  set (self' := mkResources (insort id r (resources self)) (managed self)).
  exists self'. unfold add. rewrite Hm.
  assert (∀ x, occurrences x (id <$> resources self')
               = (if decide (x = id r) then 1 else 0)
                 + occurrences x (id <$> resources self)) as Hocc.
  { intros x. simpl.
    rewrite (occurrences_perm x _ (id <$> r :: resources self))
      by (by rewrite insort_perm).
    by rewrite fmap_cons, occurrences_cons. }
  assert (occurrences (id r) (id <$> resources self) = 1) as Hone.
  { apply occurrences_pos in Hin.
    rewrite NoDup_occurrences in Hnd. specialize (Hnd (id r)). lia. }
  assert (occurrences (id r) (id <$> resources self') = 2) as Htwo.
  { rewrite Hocc, decide_True by done. lia. }
  split; [done|]. split; [done|].
  assert (sorted_by_id (resources self')) as Hs'
      by (by apply insort_sorted).
  assert (¬ NoDup (id <$> resources self')) as Hnd'.
  { rewrite NoDup_occurrences. intros H. specialize (H (id r)). lia. }
  destruct (_verify_duplicates pattern_matches self' Hs' Hnd')
    as (dups & _ & Hstrict & Hmem & Hv').
  assert (dups = [id r]) as ->.
  { apply singleton_by_members; [by apply strictly_sorted_NoDup|].
    intros x. rewrite Hmem, Hocc.
    rewrite NoDup_occurrences in Hnd. specialize (Hnd x).
    case_decide; [|split; [lia|done]].
    split; [done|]. intros _. subst. lia. }
  simpl in Hv'. simpl.
  split; [done|]. by apply verification_error.
Qed.
End collection_theorems.

(** * The identity diff *)

Section id_diff_theorems.
Context (t : Terminal).









Lemma kind_prefix (k1 k2 x y : string) :
  has_char "="%char k1 = false → has_char "="%char k2 = false →
  k1 +:+ "=" +:+ x = k2 +:+ "=" +:+ y → k1 = k2.
Proof.
  revert k2. induction k1 as [|a k1 IH]; intros [|b k2]; simpl; try done.
  - intros _ [Hb _]%orb_false_elim [= <- _].
    by apply bool_decide_eq_false in Hb.
  - intros [Ha _]%orb_false_elim _ [= -> _].
    by apply bool_decide_eq_false in Ha.
  - intros [_ H1]%orb_false_elim [_ H2]%orb_false_elim [= -> E].
    f_equal. by apply IH.
Qed.

(** C9, as amended.  Resources whose kinds hold no ['='], as the names
    of classes written as Python identifiers do, have equal kinds
    whenever they have equal ids; hence, in the identity diff of
    collections of such resources, the two resources found under one id
    never differ in kind, so that the branch reporting [changed: kind] is
    not taken.  Nothing in the code keeps ['='] out of a kind: see
    [same_id_different_kind]. *)
Theorem id_determines_kind :
  (∀ r1 r2,
     has_char "="%char (kind r1) = false →
     has_char "="%char (kind r2) = false →
     id r1 = id r2 → kind r1 = kind r2)
  ∧ (∀ (generated current : Resources) i g c,
       Forall (λ r, has_char "="%char (kind r) = false) (iter generated) →
       Forall (λ r, has_char "="%char (kind r) = false) (iter current) →
       by_id (iter generated) !! i = Some g →
       by_id (iter current) !! i = Some c →
       kind c = kind g).
Proof.
  assert (∀ r1 r2,
     has_char "="%char (kind r1) = false →
     has_char "="%char (kind r2) = false →
     id r1 = id r2 → kind r1 = kind r2) as Hkind.
  { intros r1 r2 H1 H2 Hid. by eapply kind_prefix. }
  split; [done|].
  intros generated current i g c Hgen Hcur Hg Hc.
  rewrite by_id_lookup in Hg, Hc.
  apply resource_with_id_Some in Hg as [Hg <-].
  apply resource_with_id_Some in Hc as [Hc Hi].
  rewrite Forall_forall in Hgen, Hcur.
  apply Hkind; auto.
Qed.
End id_diff_theorems.

(** * Serialisation round trip *)

Section round_trip.
Context (pattern_matches : string → string → bool).
Context (subclasses : list Class).

Lemma foldl_insert_notin (l : list (string * value))
    (d : gmap string value) k :
  k ∉ l.*1 → foldl (λ d f, <[f.1 := f.2]> d) d l !! k = d !! k.
Proof.
  revert d. induction l as [|[k' v'] l IH]; intros d Hk; simpl; [done|].
  rewrite fmap_cons, not_elem_of_cons in Hk. destruct Hk as [Hne Hk].
  rewrite IH by done. simpl. by rewrite lookup_insert_ne.
Qed.

Lemma foldl_insert_in (l : list (string * value))
    (d : gmap string value) k v :
  NoDup l.*1 → (k, v) ∈ l →
  foldl (λ d f, <[f.1 := f.2]> d) d l !! k = Some v.
Proof.
  revert d. induction l as [|[k' v'] l IH]; intros d Hnd Hin; simpl.
  - by apply elem_of_nil in Hin.
  - rewrite fmap_cons in Hnd. apply NoDup_cons in Hnd as [Hk' Hnd].
    apply elem_of_cons in Hin as [[= -> ->]|Hin].
    + rewrite foldl_insert_notin by done. simpl. by rewrite lookup_insert_eq.
    + by apply IH.
Qed.

Lemma foldl_insert_dom (l : list (string * value)) (d : gmap string value) :
  dom (foldl (λ d f, <[f.1 := f.2]> d) d l) = list_to_set l.*1 ∪ dom d.
Proof.
  revert d. induction l as [|[k v] l IH]; intros d; simpl.
  - by rewrite (left_id_L ∅ (∪)).
  - rewrite IH. simpl. rewrite dom_insert_L.
    by rewrite (assoc_L (∪)), (comm_L (∪) _ {[k]}).
Qed.

Lemma asdict_dom r : dom (asdict r) = list_to_set (field_names r).
Proof.
  unfold asdict. rewrite foldl_insert_dom, dom_empty_L.
  by rewrite (right_id_L ∅ (∪)).
Qed.

Lemma asdict_field r k v :
  NoDup (field_names r) → (k, v) ∈ fields r → asdict r !! k = Some v.
Proof. apply foldl_insert_in. Qed.



End round_trip.

(** * The context label of the textual diff *)

Section context_label.
Context (t : Terminal).
Context (formatter : string → string → option (value → string)).
Context (pattern_matches : string → string → bool).
Context (strip_ansi : string → string).
Context (unified_diff :
           list string → list string → string → string → nat → list string).

Lemma split_nl_no_newline s :
  Forall (λ l, contains_newline l = false) (split_nl s).
Proof.
  induction s as [|c s IH]; simpl.
  - by constructor.
  - case_decide as Hc.
    + by constructor.
    + destruct (split_nl s) as [|l ls].
      { constructor; [|done]. simpl. by rewrite bool_decide_eq_false_2. }
      apply Forall_cons in IH as [Hl Hls].
      constructor; [|done]. simpl.
      by rewrite bool_decide_eq_false_2.
Qed.

Lemma span_no_newline s :
  contains_newline s = false →
  span (λ c, negb (bool_decide (c = newline))) s = (s, "").
Proof.
  induction s as [|c s IH]; simpl; [done|].
  intros [Hc Hs]%orb_false_elim. rewrite Hc. simpl. by rewrite IH.
Qed.

(** On a line without newline, [label_re] matches exactly the two-space
    lines and its group is the rest of the line. *)
Lemma label_re_spec l label :
  contains_newline l = false →
  label_re l = Some label ↔ two_space_line l label.
Proof.
  intros Hl. unfold label_re, two_space_line. split.
  - destruct l as [|c1 [|c2 [|c3 rest]]]; try done.
    case_decide as H; [|done]. destruct H as (-> & -> & Hc3).
    simpl in Hl. apply orb_false_elim in Hl as [_ Hl].
    rewrite span_no_newline by done. intros [= <-].
    by exists c3, rest.
  - intros (c & rest & Hc & -> & ->).
    rewrite decide_True by done.
    simpl in Hl. apply orb_false_elim in Hl as [_ Hl].
    by rewrite span_no_newline.
Qed.

Lemma scan_back_spec (left : list string) start n :
  Forall (λ l, contains_newline l = false) left →
  n ≤ length left →
  ∃ label, scan_back left start n = Ok label
           ∧ context_label left start n label.
Proof.
  intros Hnl. induction n as [|n IH]; intros Hn.
  - exists "". split; [done|]. right. split; [done|]. intros; lia.
  - simpl. case_decide as Hlt.
    + destruct (lookup_lt_is_Some_2 left n) as [l Hl]; [lia|].
      rewrite Hl.
      assert (contains_newline l = false) as Hl'.
      { rewrite Forall_forall in Hnl. apply Hnl.
        by eapply list_elem_of_lookup_2. }
      destruct (label_re l) as [label|] eqn:Hre.
      * exists label. split; [done|]. left. exists n, l.
        split_and!; [lia|lia|done|by apply label_re_spec|].
        intros; lia.
      * destruct IH as (label & Hscan & Hlabel); [lia|].
        exists label. split; [done|].
        assert (¬ ∃ label', two_space_line l label') as Hno.
        { intros [label' H]. apply label_re_spec in H; [|done]. congruence. }
        destruct Hlabel as [(j & l' & Hj & Hj' & Htwo & Hbetween)|[-> Hnone]].
        -- left. exists j, l'. split_and!; [lia|lia|done|done|].
           intros k lk Hk Hlk. destruct (decide (k = n)) as [->|].
           ++ by simplify_eq.
           ++ apply (Hbetween k lk); [lia|done].
        -- right. split; [done|]. intros k lk Hk Hlk.
           destruct (decide (k = n)) as [->|].
           ++ by simplify_eq.
           ++ apply (Hnone k lk); [lia|done].
    + exists "". split; [done|]. right. split; [done|]. intros; lia.
Qed.

Lemma strip_prefix_app p s : strip_prefix p (p +:+ s) = Some s.
Proof.
  induction p as [|a p IH]; simpl; [by destruct s|].
  by rewrite decide_True.
Qed.

Lemma span_digits_app digits rest :
  span is_digit digits = (digits, "") →
  span is_digit (digits +:+ "," +:+ rest) = (digits, "," +:+ rest).
Proof.
  induction digits as [|c digits IH]; simpl; [done|].
  destruct (is_digit c); [|done].
  destruct (span is_digit digits) as [a b] eqn:E.
  intros [= -> ->]. by rewrite IH.
Qed.

Lemma context_re_hunk_range d n :
  hunk_range d n → ∃ digits, context_re d = Some digits ∧ int digits = Ok n.
Proof.
  intros (digits & rest & -> & Hne & Hspan & Hint).
  exists digits. split; [|done]. unfold context_re.
  rewrite strip_prefix_app. simpl. rewrite span_digits_app by done.
  reflexivity.
Qed.

Lemma split_nl_nonempty s : split_nl s ≠ [].
Proof.
  destruct s as [|c s]; simpl; [done|].
  case_decide; [done|]. by destruct (split_nl s).
Qed.

Lemma split_nl_app a b :
  split_nl (a +:+ nl +:+ b) = split_nl a ++ split_nl b.
Proof.
  induction a as [|c a IH]; simpl.
  - reflexivity.
  - rewrite IH. case_decide; [done|].
    pose proof (split_nl_nonempty a). by destruct (split_nl a).
Qed.

Lemma list_index_elem x l : x ∈ l → ∃ n, list_index x l = Ok n.
Proof.
  induction l as [|y l IH]; [by intros ?%elem_of_nil|].
  intros Hx. simpl. case_decide; [by eexists|].
  apply elem_of_cons in Hx as [->|Hx]; [done|].
  destruct (IH Hx) as [n ->]. by eexists.
Qed.

Lemma Resources_str_anchor self s :
  Resources_str t formatter pattern_matches self = Ok s →
  ∃ start, list_index "resources:" (split_nl s) = Ok start.
Proof.
  unfold Resources_str.
  destruct (_verify pattern_matches self) as [[]|]; [|done].
  intros [= <-]. apply list_index_elem.
  rewrite split_nl_app.
  rewrite (split_nl_app (join nl ((λ m, "  - " +:+ m) <$> managed self))).
  match goal with
  | |- context [split_nl (nl +:+ ?x)] =>
      change (split_nl (nl +:+ x)) with (split_nl ("" +:+ nl +:+ x))
  end.
  rewrite (split_nl_app "").
  rewrite (split_nl_app "resources:").
  rewrite !elem_of_app. right. right. right. left. by left.
Qed.

Lemma length_append a b :
  String.length (a +:+ b) = String.length a + String.length b.
Proof. induction a as [|c a IH]; simpl; [done|]. by rewrite IH. Qed.

Lemma header_not_id r : header t r ≠ id r.
Proof.
  intros H. apply (f_equal String.length) in H.
  unfold header in H. rewrite !length_append in H. simpl in H. lia.
Qed.

(** C5, as amended.  The rendering of the current collection has a
    [resources:] line.  A hunk-range line [@@ -n,...] of the unified
    diff, [n] being a line of that rendering, is coloured and followed
    by a space and a label: scanning the rendering backward from line
    [n] down to the [resources:] line, the first line that has exactly
    two leading spaces followed by a non-space gives the label, which
    is that line without the two spaces; the label is empty if there is
    no such line.  When that line is the header of a resource, the label
    is the id between the underline and normal sequences of the
    terminal, followed by a colon; it is never the id alone. *)
Theorem hunk_context_label (current : Resources) (s : string) :
  Resources_str t formatter pattern_matches current = Ok s →
  ∃ start,
    list_index "resources:" (split_nl s) = Ok start
    ∧ (∀ generated s',
         Resources_str t formatter pattern_matches generated = Ok s' →
         textual_diff t formatter pattern_matches strip_ansi unified_diff
           generated current
         = (lines ← mapM (λ line,
                            let l := if decide (line = "") then " "
                                     else line in
                            rstrip <$> colorize t strip_ansi
                                         (split_nl s) start l)
                         (unified_diff (split_nl s) (split_nl s')
                            "current" "generated" 8);
            Ok (join nl lines)))
    ∧ ∀ d n,
        hunk_range d n → n ≤ length (split_nl s) →
        ∃ label,
          colorize t strip_ansi (split_nl s) start d
          = Ok (yellow t (strip_ansi d) +:+ " " +:+ label)
          ∧ context_label (split_nl s) start n label
          ∧ ∀ r, two_space_line ("  " +:+ header t r) label →
                 label = underline t +:+ id r +:+ normal t +:+ ":"
                 ∧ label ≠ id r.
Proof.
  intros Hstr.
  destruct (Resources_str_anchor current s Hstr) as [start Hstart].
  exists start. split_and!; [done| |].
  - intros generated s' Hgen. unfold textual_diff, diff_body.
    rewrite Hstr. cbn [mbind result_bind]. rewrite Hgen.
    cbn [mbind result_bind]. rewrite Hstart. done.
  - intros d n Hd Hn.
    destruct (scan_back_spec (split_nl s) start n) as (label & Hscan & Hl);
      [apply split_nl_no_newline|done|].
    exists label. split_and!; [|done|].
    + destruct (context_re_hunk_range d n Hd) as (digits & Hre & Hint).
      destruct Hd as (digits' & rest & -> & _).
      unfold colorize, contextualize. simpl. simpl in Hre.
      rewrite Hre. cbn [mbind result_bind]. rewrite Hint.
      cbn [mbind result_bind]. rewrite Hscan. done.
    + intros r (c & rest & _ & Hline & ->).
      injection Hline as Hline. rewrite <- Hline.
      split; [done|]. apply header_not_id.
Qed.
End context_label.

(** * The statements on sample data *)




Lemma duplicate_ids_rejected_witness :
  ∃ dups,
    dups ≠ []
    ∧ Resources_init sample_matches [Worker "w1" 3; Worker "w1" 5] ["*"]
      = Raise (RuntimeError ("duplicate resources: " +:+ join ", " dups)).
Proof.
  destruct (duplicate_ids_rejected plain_terminal no_formatter sample_matches
              (λ x, x) sample_unified_diff
              [Worker "w1" 3; Worker "w1" 5] ["*"])
    as (dups & Hne & _ & _ & Hinit & _).
  - apply (bool_decide_unpack _). vm_compute. exact I.
  - exists dups. split; [exact Hne|exact Hinit].
Defined.

Lemma unmanaged_ids_rejected_witness :
  ∃ unmanaged,
    unmanaged ≠ []
    ∧ Resources_init sample_matches
        [Worker "w2" 1; Worker "w1" 5; Worker "w0" 0] ["Worker=w1"]
      = Raise (RuntimeError
                 ("unmanaged resources: " +:+ join ", " unmanaged)).
Proof.
  destruct (proj1 (unmanaged_ids_rejected sample_matches
                     [Worker "w2" 1; Worker "w1" 5; Worker "w0" 0]
                     ["Worker=w1"]))
    as (unmanaged & Hne & _ & _ & Hinit).
  - apply (bool_decide_unpack _). vm_compute. exact I.
  - exists (Worker "w2" 1). split; [by left|reflexivity].
  - exists unmanaged. split; [exact Hne|exact Hinit].
Defined.

(** The textual diff of the samples: the hunk line carries an empty
    label, and no hunk line whatever gets the id of the changed resource
    as its label. *)
Lemma hunk_label_is_not_the_id :
  ∃ s,
    Resources_str plain_terminal no_formatter sample_matches sample_current
    = Ok s
    ∧ list_index "resources:" (split_nl s) = Ok 3
    ∧ textual_diff plain_terminal no_formatter sample_matches (λ x, x)
        sample_unified_diff sample_generated sample_current
      = Ok (join nl
              ["--- current"; "+++ generated"; "@@ -1,7 +1,7 @@";
               " managed:"; "   - *"; ""; " resources:"; "   Worker=w1:";
               "     id: w1"; "-    count: 5"; "+    count: 3"])
    ∧ contextualize (split_nl s) 3 "@@ -1,7 +1,7 @@" = Ok ""
    ∧ ¬ ∃ d, contextualize (split_nl s) 3 d = Ok (id (Worker "w1" 5)).
Proof.
  eexists. split; [vm_compute; reflexivity|].
  split; [vm_compute; reflexivity|].
  split; [vm_compute; reflexivity|].
  split; [vm_compute; reflexivity|].
  intros [d Hd]. unfold contextualize in Hd.
  destruct (context_re d) as [digits|]; [|discriminate].
  destruct (int digits) as [n|]; [|discriminate].
  cbn [mbind result_bind] in Hd.
  do 8 (destruct n as [|n]; [vm_compute in Hd; discriminate|]).
  vm_compute in Hd. discriminate.
Qed.

Lemma hunk_context_label_witness :
  ∃ s start,
    Resources_str plain_terminal no_formatter sample_matches sample_current
    = Ok s
    ∧ list_index "resources:" (split_nl s) = Ok start
    ∧ ∀ d n,
        hunk_range d n → n ≤ length (split_nl s) →
        ∃ label,
          colorize plain_terminal (λ x, x) (split_nl s) start d
          = Ok (yellow plain_terminal d +:+ " " +:+ label)
          ∧ context_label (split_nl s) start n label.
Proof.
  eexists.
  edestruct (hunk_context_label plain_terminal no_formatter sample_matches
               (λ x, x) sample_unified_diff sample_current)
    as (start & Hstart & _ & Hlabel).
  { vm_compute. reflexivity. }
  exists start. split; [reflexivity|]. split; [exact Hstart|].
  intros d n Hd Hn. destruct (Hlabel d n Hd Hn) as (label & H1 & H2 & _).
  exists label. split; [exact H1|exact H2].
Defined.


(** [add] of a resource whose id is already there: the collection was
    verified and iterated in strictly ascending order, [add] returns
    normally, and the iteration order is no longer strict. *)
Lemma add_breaks_strict_order :
  sorted_by_id (resources sample_current)
  ∧ _verify sample_matches sample_current = Ok ()
  ∧ StronglySorted str_lt (id <$> iter sample_current)
  ∧ ∃ self',
      add sample_matches sample_current (Worker "w1" 3) = (Ok (), self')
      ∧ ¬ StronglySorted str_lt (id <$> iter self').
Proof.
  split; [repeat constructor|].
  split; [vm_compute; reflexivity|].
  split; [repeat constructor|].
  eexists. split; [vm_compute; reflexivity|].
  intros H%strictly_sorted_NoDup. revert H.
  apply (bool_decide_unpack _). vm_compute. exact I.
Qed.

Lemma iteration_order_witness :
  StronglySorted str_lt (id <$> iter sample_current)
  ∧ ∀ self',
      add sample_matches sample_current (Worker "w2" 3) = (Ok (), self') →
      StronglySorted str_lt (id <$> iter self').
Proof.
  destruct (iteration_order sample_matches sample_current (Worker "w2" 3))
    as (Hver & _ & Hadd).
  assert (StronglySorted str_lt (id <$> iter sample_current)) as Hs.
  { apply Hver; [repeat constructor|vm_compute; reflexivity]. }
  split; [exact Hs|].
  intros self' Hself'. apply (Hadd self' Hself'); [exact Hs|].
  apply (bool_decide_unpack _). vm_compute. exact I.
Defined.

Lemma add_managed_only_witness :
  ∃ self' l1 l2,
    add sample_matches sample_current (Worker "w0" 1) = (Ok (), self')
    ∧ managed self' = managed sample_current
    ∧ resources sample_current = l1 ++ l2
    ∧ resources self' = l1 ++ Worker "w0" 1 :: l2
    ∧ (sorted_by_id (resources sample_current) →
       sorted_by_id (resources self')).
Proof.
  apply (add_managed_only sample_matches sample_current (Worker "w0" 1)).
  reflexivity.
Defined.

Lemma id_determines_kind_witness :
  id (Worker "w1" 3) = id (Worker "w1" 5)
  ∧ kind (Worker "w1" 3) = kind (Worker "w1" 5).
Proof.
  split; [reflexivity|].
  apply (proj1 id_determines_kind (Worker "w1" 3) (Worker "w1" 5));
    reflexivity.
Defined.

(** Two resources with one id and different kinds: the ['='] of the id
    may belong to the kind or to the primary key.  The identity diff of
    the collections that hold them takes the branch for a changed
    kind. *)
Lemma same_id_different_kind :
  id (mkResource "Worker=x" ("name", VStr "1") [])
  = id (mkResource "Worker" ("name", VStr "x=1") [])
  ∧ kind (mkResource "Worker=x" ("name", VStr "1") [])
    ≠ kind (mkResource "Worker" ("name", VStr "x=1") [])
  ∧ _verify sample_matches
      (mkResources [mkResource "Worker=x" ("name", VStr "1") []] ["*"])
    = Ok ()
  ∧ _verify sample_matches
      (mkResources [mkResource "Worker" ("name", VStr "x=1") []] ["*"])
    = Ok ()
  ∧ id_diff plain_terminal
      (mkResources [mkResource "Worker=x" ("name", VStr "1") []] ["*"])
      (mkResources [mkResource "Worker" ("name", VStr "x=1") []] ["*"])
    = Ok "! Worker=x=1 (changed: kind)".
Proof.
  split; [reflexivity|].
  split; [discriminate|].
  split; [vm_compute; reflexivity|].
  split; vm_compute; reflexivity.
Qed.

Lemma add_accepts_duplicate_witness :
  ∃ self',
    add sample_matches sample_current (Worker "w1" 3) = (Ok (), self')
    ∧ occurrences "Worker=w1" (id <$> iter self') = 2
    ∧ _verify sample_matches self'
      = Raise (RuntimeError "duplicate resources: Worker=w1").
Proof.
  destruct (add_accepts_duplicate plain_terminal no_formatter sample_matches
              (λ x, x) sample_unified_diff sample_current (Worker "w1" 3))
    as (self' & Hadd & Hocc & Hv & _).
  - repeat constructor.
  - vm_compute. reflexivity.
  - reflexivity.
  - apply (bool_decide_unpack _). vm_compute. exact I.
  - exists self'. split; [exact Hadd|]. split; [exact Hocc|exact Hv].
Defined.

(** The scenarios of the identity diff. *)
Example id_diff_added :
  id_diff plain_terminal (mkResources [Worker "w1" 3] ["*"])
    (mkResources [] ["*"])
  = Ok "+ Worker=w1".
Proof. vm_compute. reflexivity. Qed.

Example id_diff_changed :
  id_diff plain_terminal sample_generated sample_current
  = Ok "! Worker=w1 (changed: count)".
Proof. vm_compute. reflexivity. Qed.

Example id_diff_removed :
  id_diff plain_terminal (mkResources [] ["*"])
    (mkResources [Worker "w1" 3] ["*"])
  = Ok "- Worker=w1".
Proof. vm_compute. reflexivity. Qed.

(** * Further properties of the collection *)

Section collection_properties.
Context (pattern_matches : string → string → bool).

Lemma fmap_insort {A} (key : A → string) x l :
  key <$> insort key x l = insort (λ s, s) (key x) (key <$> l).
Proof.
  induction l as [|y l IH]; simpl; [done|].
  case_bool_decide; simpl; [f_equal; apply IH|done].
Qed.

Lemma fmap_sorted_by {A} (key : A → string) l :
  key <$> sorted_by key l = sorted (key <$> l).
Proof.
  unfold sorted, sorted_by.
  cut (∀ acc, key <$> foldl (λ acc x, insort key x acc) acc l
              = foldl (λ acc x, insort (λ s, s) x acc) (key <$> acc)
                  (key <$> l)).
  { intros H. apply (H []). }
  induction l as [|x l IH]; intros acc; simpl; [done|].
  rewrite IH. f_equal. apply fmap_insort.
Qed.

Lemma sorted_perm_eq l l' : l ≡ₚ l' → sorted l = sorted l'.
Proof.
  intros Hp. apply (StronglySorted_unique String.le).
  - apply sorted_sorted.
  - apply sorted_sorted.
  - by rewrite !sorted_perm.
Qed.

Lemma NoDup_fmap_elem {A} (f : A → string) l x y :
  NoDup (f <$> l) → x ∈ l → y ∈ l → f x = f y → x = y.
Proof.
  induction l as [|z l IH]; [by intros _ ?%elem_of_nil|].
  rewrite fmap_cons, NoDup_cons.
  intros [Hz Hnd] [->|Hx]%elem_of_cons [->|Hy]%elem_of_cons Hf; try done.
  - destruct Hz. rewrite Hf. apply list_elem_of_fmap. by exists y.
  - destruct Hz. rewrite <- Hf. apply list_elem_of_fmap. by exists x.
  - by apply IH.
Qed.

Lemma sorted_by_perm_eq (rs rs' : list Resource) :
  rs ≡ₚ rs' → NoDup (id <$> rs) → sorted_by id rs = sorted_by id rs'.
Proof.
  intros Hp Hnd. apply (StronglySorted_unique_strong (key_le id)).
  - intros x1 x2 H1 H2 H12 H21.
    rewrite sorted_by_perm in H1, H2. rewrite <- Hp in H2.
    apply (NoDup_fmap_elem id rs); [done|done|done|].
    by apply (anti_symm String.le).
  - apply sorted_by_sorted.
  - apply sorted_by_sorted.
  - by rewrite !sorted_by_perm.
Qed.

(** The order in which the resources are given to the constructor does
    not matter: the same collection is built, or the same error
    raised. *)
Theorem Resources_init_permutation (rs rs' : list Resource)
    (ms : list string) :
  rs ≡ₚ rs' →
  Resources_init pattern_matches rs ms = Resources_init pattern_matches rs' ms.
Proof.
  intros Hp.
  assert (id <$> sorted_by id rs = id <$> sorted_by id rs') as Hids.
  { rewrite !fmap_sorted_by. apply sorted_perm_eq. by rewrite Hp. }
  destruct (decide (NoDup (id <$> rs))) as [Hnd|Hnd].
  - unfold Resources_init. by rewrite (sorted_by_perm_eq rs rs').
  - assert (adjacent_dupes (id <$> sorted_by id rs) ≠ []) as Hne.
    { rewrite adjacent_dupes_nil
        by (apply ids_sorted, sorted_by_sorted).
      by rewrite sorted_by_perm. }
    unfold Resources_init, _verify. simpl. rewrite <- Hids.
    by rewrite !decide_True by done.
Qed.

(** Adding a resource with a new, managed id to a verified collection
    leaves it verified, and the resource is then part of it. *)
Theorem add_keeps_verified (self : Resources) (r : Resource) :
  sorted_by_id (resources self) →
  _verify pattern_matches self = Ok () →
  is_managed pattern_matches self (id r) = true →
  id r ∉ id <$> iter self →
  ∃ self',
    add pattern_matches self r = (Ok (), self')
    ∧ sorted_by_id (resources self')
    ∧ _verify pattern_matches self' = Ok ()
    ∧ r ∈ iter self'
    ∧ ∀ x, x ∈ iter self → x ∈ iter self'.
Proof.
  intros Hs Hv Hm Hnew. unfold add, iter in *. rewrite Hm.
  eexists. split; [done|]. simpl.
  apply _verify_ok in Hv as [Hnd Hall]; [|done].
  assert (sorted_by_id (insort id r (resources self))) as Hs'
      by (by apply insort_sorted).
  split_and!.
  - done.
  - apply _verify_ok; [done|]. simpl. split.
    + rewrite insort_perm, fmap_cons. by apply NoDup_cons.
    + rewrite insort_perm. by constructor.
  - rewrite insort_perm. by left.
  - intros x Hx. rewrite insort_perm. by right.
Qed.

(** Building a collection and then adding a resource with a new, managed
    id gives the collection that the constructor builds from all the
    resources at once. *)
Theorem init_then_add (rs : list Resource) (ms : list string)
    (self : Resources) (r : Resource) :
  Resources_init pattern_matches rs ms = Ok self →
  matches pattern_matches ms (id r) = true →
  id r ∉ id <$> rs →
  ∃ self',
    add pattern_matches self r = (Ok (), self')
    ∧ Resources_init pattern_matches (rs ++ [r]) ms = Ok self'.
Proof.
  intros Hinit Hm Hnew. unfold Resources_init in Hinit.
  destruct (_verify pattern_matches _) as [[]|] eqn:Hv; [|done].
  injection Hinit as <-.
  destruct (add_keeps_verified (mkResources (sorted_by id rs) ms) r)
    as (self' & Hadd & _ & Hv' & _).
  - apply sorted_by_sorted.
  - done.
  - done.
  - unfold iter. simpl. by rewrite sorted_by_perm.
  - exists self'. split; [done|].
    unfold add in Hadd. simpl in Hadd.
    unfold is_managed in Hadd. simpl in Hadd. rewrite Hm in Hadd.
    injection Hadd as <-.
    unfold Resources_init. rewrite sorted_by_snoc. by rewrite Hv'.
Qed.

Lemma matches_app ml ml' i :
  matches pattern_matches (ml ++ ml') i
  = matches pattern_matches ml i || matches pattern_matches ml' i.
Proof. unfold matches. apply existsb_app. Qed.

(** [manage] leaves the resources alone and only widens what is managed:
    ids that were managed stay so, ids that the new pattern matches
    become so, a verified collection stays verified, and a resource that
    the new pattern matches can then be added. *)
Theorem manage_widens (self : Resources) (pattern : string) :
  resources (manage self pattern) = resources self
  ∧ (∀ i, is_managed pattern_matches self i = true →
          is_managed pattern_matches (manage self pattern) i = true)
  ∧ (∀ i, pattern_matches pattern i = true →
          is_managed pattern_matches (manage self pattern) i = true)
  ∧ (_verify pattern_matches self = Ok () →
     _verify pattern_matches (manage self pattern) = Ok ())
  ∧ (∀ r, pattern_matches pattern (id r) = true →
          (add pattern_matches (manage self pattern) r).1 = Ok ()).
Proof.
  assert (∀ i, is_managed pattern_matches self i = true →
               is_managed pattern_matches (manage self pattern) i = true)
    as Hold.
  { intros i Hi. unfold is_managed, manage in *. simpl.
    rewrite matches_app, Hi. done. }
  assert (∀ i, pattern_matches pattern i = true →
               is_managed pattern_matches (manage self pattern) i = true)
    as Hnew.
  { intros i Hi. unfold is_managed, manage. simpl.
    rewrite matches_app. simpl. rewrite Hi. simpl.
    by rewrite orb_true_r. }
  split_and!; [done|done|done| |].
  - unfold _verify. simpl.
    case_decide as Hd; [done|].
    case_decide as Hu; [done|]. intros _.
    rewrite decide_False; [done|]. intros H. apply H. clear H.
    apply sorted_nil_inv, fmap_nil_inv in Hu.
    revert Hu. generalize (resources self). intros l Hl.
    assert (filter (λ r, is_managed pattern_matches (manage self pattern)
                           (id r) = false) l = []) as ->; [|done].
    induction l as [|r l IH]; [done|].
    rewrite filter_cons in Hl. rewrite filter_cons.
    destruct (is_managed pattern_matches self (id r)) eqn:E.
    + rewrite decide_False in Hl by done.
      rewrite decide_False by (rewrite Hold; done). by apply IH.
    + by rewrite decide_True in Hl.
  - intros r Hr. unfold add. by rewrite Hnew.
Qed.
End collection_properties.

(** * Further properties of the serialisation and of [evolve] *)

Section serialisation_properties.
Context (pattern_matches : string → string → bool).
Context (subclasses : list Class).

Lemma _kind_classes_lookup (l : list Class) k :
  match _kind_classes l !! k with
  | Some c => c ∈ l ∧ cname c = k
  | None => k ∉ cname <$> l
  end.
Proof.
  induction l as [|c l IH] using rev_ind.
  - unfold _kind_classes. simpl. rewrite lookup_empty. apply not_elem_of_nil.
  - unfold _kind_classes in *. rewrite foldl_app. simpl.
    destruct (decide (cname c = k)) as [<-|Hne].
    + rewrite lookup_insert_eq. split; [|done].
      apply elem_of_app. right. by left.
    + rewrite lookup_insert_ne by done.
      destruct (foldl _ _ l !! k) as [c'|].
      * destruct IH as [Hin Hc']. split; [|done].
        apply elem_of_app. by left.
      * rewrite fmap_app, elem_of_app. intros [H|H]; [done|].
        simpl in H. apply list_elem_of_singleton in H. done.
Qed.

(** The registry keeps, under each name, the last class of that name. *)
Lemma _kind_classes_last (l : list Class) k :
  _kind_classes l !! k = last (filter (λ c, cname c = k) l).
Proof.
  induction l as [|c l IH] using rev_ind; [done|].
  unfold _kind_classes in *. rewrite foldl_app, filter_app. simpl.
  rewrite filter_cons, filter_nil.
  destruct (decide (cname c = k)) as [Heq|Hne].
  - rewrite Heq, lookup_insert_eq. by rewrite last_snoc.
  - rewrite lookup_insert_ne by done. by rewrite app_nil_r.
Qed.

(** The dictionary built from the pairs [(a, g a)]. *)
Lemma foldl_insert_tabulate (g : string → value) (l : list string)
    (d : gmap string value) a :
  foldl (λ d f, <[f.1 := f.2]> d) d ((λ a, (a, g a)) <$> l) !! a
  = if decide (a ∈ l) then Some (g a) else d !! a.
Proof.
  revert d. induction l as [|b l IH]; intros d;
    cbn [fmap list_fmap foldl].
  - rewrite decide_False; [done|apply not_elem_of_nil].
  - rewrite IH. cbn [fst snd]. destruct (decide (a ∈ l)) as [Hin|Hnin].
    + rewrite decide_True; [done|by right].
    + destruct (decide (b = a)) as [->|Hne].
      * rewrite lookup_insert_eq. rewrite decide_True; [done|by left].
      * rewrite lookup_insert_ne by done.
        rewrite decide_False; [done|].
        intros [?|?]%elem_of_cons; done.
Qed.

(** What a successful call of a class returns, as a dictionary. *)
Lemma Class_call_asdict c kwargs r :
  Class_call c kwargs = Ok r →
  kind r = cname c ∧ field_names r = attrs c ∧ asdict r = kwargs.
Proof.
  unfold Class_call. case_decide as Hdom; [|done]. intros [= <-].
  split; [done|]. split.
  - unfold field_names, fields, attrs. simpl. f_equal.
    rewrite <- list_fmap_compose. by rewrite list_fmap_id.
  - apply map_eq. intros a. unfold asdict.
    change (fields _) with
      ((λ a, (a, kwargs !!! a)) <$> (key_attr c :: other_attrs c)).
    rewrite foldl_insert_tabulate, lookup_empty.
    fold (attrs c). case_decide as Ha.
    + assert (a ∈ dom kwargs) as [v Hv]%elem_of_dom
          by (rewrite Hdom; by apply elem_of_list_to_set).
      rewrite Hv. f_equal. by apply lookup_total_correct.
    + symmetry. apply not_elem_of_dom. rewrite Hdom.
      by rewrite elem_of_list_to_set.
Qed.

(** [Resource.to_json] undoes a successful [Resource.from_json]. *)
Theorem Resource_to_json_from_json (json : gmap string value) (r : Resource) :
  Resource_from_json subclasses json = Ok r →
  Resource_to_json r = json.
Proof.
  unfold Resource_from_json, Resource_to_json.
  destruct (json !! "kind") as [[| |k]|] eqn:Hk; try done.
  pose proof (_kind_classes_lookup subclasses k) as Hreg.
  destruct (_kind_classes subclasses !! k) as [c|]; [|done].
  destruct Hreg as [_ Hname].
  intros (Hkind & _ & Hdict)%Class_call_asdict.
  rewrite Hkind, Hdict, Hname. by apply insert_delete_id.
Qed.

(** The outcomes of [Resource.from_json]: a mapping without [kind] raises
    [KeyError('kind')]; a [kind] that is not the name of a subclass raises
    [KeyError] with that value; for the name of a subclass, the class
    called is the last one of that name in the list of subclasses, and
    the call raises [TypeError] unless the other keys are exactly the
    field names of that class, and otherwise returns an instance of that
    kind with these fields. *)
Theorem Resource_from_json_outcome (json : gmap string value) :
  (json !! "kind" = None →
   Resource_from_json subclasses json = Raise (KeyError (VStr "kind")))
  ∧ (∀ v, json !! "kind" = Some v →
          (∀ k, v = VStr k → k ∉ cname <$> subclasses) →
          Resource_from_json subclasses json = Raise (KeyError v))
  ∧ (∀ k, json !! "kind" = Some (VStr k) →
          k ∈ cname <$> subclasses →
          ∃ c, last (filter (λ c, cname c = k) subclasses) = Some c
               ∧ c ∈ subclasses ∧ cname c = k
               ∧ Resource_from_json subclasses json
                 = Class_call c (delete "kind" json)
               ∧ (dom (delete "kind" json) ≠ list_to_set (attrs c) →
                  Resource_from_json subclasses json = Raise TypeError)
               ∧ (dom (delete "kind" json) = list_to_set (attrs c) →
                  ∃ r, Resource_from_json subclasses json = Ok r
                       ∧ kind r = k ∧ field_names r = attrs c)).
Proof.
  unfold Resource_from_json. split_and!.
  - by intros ->.
  - intros v -> Hv. destruct v as [| |k]; try done.
    pose proof (_kind_classes_lookup subclasses k) as Hreg.
    destruct (_kind_classes subclasses !! k) as [c|]; [|done].
    destruct Hreg as [Hin Hname]. destruct (Hv k eq_refl).
    apply list_elem_of_fmap. by exists c.
  - intros k -> Hk.
    pose proof (_kind_classes_lookup subclasses k) as Hreg.
    pose proof (_kind_classes_last subclasses k) as Hlast.
    destruct (_kind_classes subclasses !! k) as [c|]; [|done].
    destruct Hreg as [Hin Hname]. exists c.
    split_and!; [done|done|done|done| |].
    + intros Hdom. unfold Class_call. by rewrite decide_False.
    + intros Hdom.
      destruct (Class_call c (delete "kind" json)) as [r|e] eqn:Hcall.
      * exists r. split; [done|].
        apply Class_call_asdict in Hcall as (? & ? & _). split; congruence.
      * unfold Class_call in Hcall. by rewrite decide_True in Hcall.
Qed.

Lemma mapM_Ok_inv {A B} (f : A → result B) l rs :
  mapM f l = Ok rs → Forall2 (λ x r, f x = Ok r) l rs.
Proof.
  revert rs. induction l as [|x l IH]; intros rs; cbn [mapM].
  - intros [= <-]. constructor.
  - destruct (f x) as [y|] eqn:Hx; [|done]. cbn [mbind result_bind].
    destruct (mapM f l) as [ys|]; [|done]. cbn [mbind result_bind].
    intros [= <-]. constructor; [done|]. by apply IH.
Qed.

(** A collection loaded by [Resources.from_json] is sorted by id and
    verified, has the managed patterns of the input, and [to_json] gives
    the input back, up to the order of the resources. *)
Theorem from_json_verified (json : ResourcesJson) (self : Resources) :
  from_json pattern_matches subclasses json = Ok self →
  sorted_by_id (resources self)
  ∧ _verify pattern_matches self = Ok ()
  ∧ managed self = json_managed json
  ∧ ∃ json',
      to_json pattern_matches self = Ok json'
      ∧ json_managed json' = json_managed json
      ∧ json_resources json' ≡ₚ json_resources json.
Proof.
  unfold from_json.
  destruct (mapM _ (json_resources json)) as [rs|] eqn:Hrs; [|done].
  cbn [mbind result_bind]. unfold Resources_init.
  destruct (_verify pattern_matches _) as [[]|] eqn:Hv; [|done].
  intros [= <-]. simpl.
  split_and!; [apply sorted_by_sorted|done|done|].
  unfold to_json. rewrite Hv. eexists. split_and!; [done|done|].
  unfold iter. simpl. rewrite sorted_by_perm.
  apply mapM_Ok_inv in Hrs.
  assert (Resource_to_json <$> rs = json_resources json) as ->; [|done].
  clear Hv. induction Hrs as [|j r js rs Hj _ IH]; [done|].
  rewrite fmap_cons, IH. f_equal. by apply Resource_to_json_from_json.
Qed.

(** [evolve] on a resource with distinct field names: when every name in
    [args] is a field, the result is a resource of the same kind with the
    same field names whose values are those of [args] where given and
    those of the resource elsewhere; its id is unchanged if the primary
    key is not in [args], and it is the resource itself if [args] is
    empty.  When [args] names something that is not a field, [TypeError]
    is raised. *)
Theorem evolve_outcome (r : Resource) (args : gmap string value) :
  NoDup (field_names r) →
  (dom args ⊆ list_to_set (field_names r) →
   ∃ r', evolve r args = Ok r'
         ∧ kind r' = kind r
         ∧ field_names r' = field_names r
         ∧ asdict r' = args ∪ asdict r
         ∧ (args !! (key_field r).1 = None → id r' = id r)
         ∧ (args = ∅ → r' = r))
  ∧ (¬ dom args ⊆ list_to_set (field_names r) →
     evolve r args = Raise TypeError).
Proof.
  intros Hnd.
  assert (attrs (class_of r) = field_names r) as Hattrs by done.
  assert (dom (args ∪ asdict r) = dom args ∪ list_to_set (field_names r))
    as Hdom by (by rewrite dom_union_L, asdict_dom).
  split.
  - intros Hsub.
    assert (dom (args ∪ asdict r) = list_to_set (attrs (class_of r)))
      as Hdom'.
    { rewrite Hdom, Hattrs. by apply subseteq_union_1_L. }
    destruct (evolve r args) as [r'|] eqn:Hev.
    2:{ unfold evolve, Class_call in Hev. by rewrite decide_True in Hev. }
    exists r'. split; [done|].
    pose proof Hev as (Hkind & Hnames & Hdict)%Class_call_asdict.
    split_and!; [done|done|done| |].
    + intros Hkey. unfold evolve, Class_call in Hev.
      rewrite decide_True in Hev by done. injection Hev as <-.
      unfold id. simpl. do 3 f_equal.
      apply lookup_total_correct. rewrite lookup_union_r by done.
      apply asdict_field; [done|]. unfold fields.
      rewrite <- surjective_pairing. by left.
    + intros ->. unfold evolve, Class_call in Hev.
      rewrite decide_True in Hev by done. injection Hev as <-.
      rewrite (left_id_L ∅ (∪)).
      destruct r as [k [kn kv] others]. simpl. f_equal.
      * f_equal. apply lookup_total_correct.
        apply asdict_field; [done|]. by left.
      * assert (∀ f, f ∈ others →
                  asdict (mkResource k (kn, kv) others) !!! f.1 = f.2)
          as Hval.
        { intros [a v] Hf. apply lookup_total_correct.
          apply asdict_field; [done|]. by right. }
        clear -Hval. revert Hval.
        generalize (asdict (mkResource k (kn, kv) others)).
        intros d Hval. induction others as [|[a v] l IH]; [done|].
        pose proof (Hval (a, v) ltac:(by left)) as Ha. simpl in Ha.
        simpl. rewrite Ha.
        f_equal. apply IH. intros f Hf. apply Hval. by right.
  - intros Hsub. unfold evolve, Class_call.
    rewrite decide_False; [done|].
    rewrite Hdom, Hattrs. intros E. apply Hsub.
    rewrite <- E. apply union_subseteq_l.
Qed.
End serialisation_properties.

(** * Further properties of the diffs *)

Section diff_properties.
Context (t : Terminal).
Context (formatter : string → string → option (value → string)).
Context (pattern_matches : string → string → bool).

Lemma id_diff_loop_same (m : gmap string Resource) ids rv :
  (∀ i, i ∈ ids → is_Some (m !! i)) →
  id_diff_loop t m m ids rv = Ok rv.
Proof.
  revert rv. induction ids as [|i ids IH]; intros rv Hin; [done|].
  destruct (Hin i) as [r Hr]; [by left|].
  simpl. rewrite Hr. rewrite decide_True by done.
  apply IH. intros j Hj. apply Hin. by right.
Qed.

(** The identity diff of two collections that hold the same resources is
    empty; no verification takes place, so that this holds also for
    collections in which an id is repeated or unmanaged. *)
Theorem id_diff_same_resources (generated current : Resources) :
  resources generated = resources current →
  id_diff t generated current = Ok "".
Proof.
  intros Hres. unfold id_diff, iter. rewrite Hres.
  rewrite id_diff_loop_same; [done|].
  intros i Hi.
  apply elem_of_sorted, elem_of_elements, elem_of_union in Hi.
  rewrite !elem_of_dom in Hi. by destruct Hi.
Qed.

Lemma scan_back_local (left left' : list string) start n :
  (∀ k, start ≤ k < n → left !! k = left' !! k) →
  scan_back left start n = scan_back left' start n.
Proof.
  induction n as [|n IH]; intros Hagree; [done|].
  simpl. case_decide as Hlt; [|done].
  rewrite <- (Hagree n) by lia.
  destruct (left !! n) as [l|]; [|done].
  destruct (label_re l); [done|].
  apply IH. intros k Hk. apply Hagree. lia.
Qed.

(** The context label is taken from the lines at or below the
    [resources:] anchor only: the lines above it, such as those of the
    managed patterns, have no influence on it, and a hunk that starts at
    or above the anchor gets the empty label whatever the lines are. *)
Theorem contextualize_below_anchor (left left' : list string)
    (start : nat) (d : string) :
  ((∀ k, start ≤ k → left !! k = left' !! k) →
   contextualize left start d = contextualize left' start d)
  ∧ (∀ n, hunk_range d n → n ≤ start →
          contextualize left start d = Ok "").
Proof.
  split.
  - intros Hagree. unfold contextualize.
    destruct (context_re d); [|done].
    destruct (int s) as [n|]; [|done]. cbn [mbind result_bind].
    apply scan_back_local. intros k Hk. apply Hagree. lia.
  - intros n Hd Hn.
    destruct (context_re_hunk_range d n Hd) as (digits & Hre & Hint).
    unfold contextualize. rewrite Hre. cbn [mbind result_bind].
    rewrite Hint. cbn [mbind result_bind].
    destruct n as [|n]; [done|]. simpl.
    rewrite decide_False; [done|lia].
Qed.

Lemma split_nl_line s : contains_newline s = false → split_nl s = [s].
Proof.
  induction s as [|c s IH]; simpl; [done|].
  intros [Hc Hs]%orb_false_elim. apply bool_decide_eq_false in Hc.
  rewrite decide_False by done. by rewrite IH.
Qed.

Lemma split_nl_join ls :
  ls ≠ [] → Forall (λ l, contains_newline l = false) ls →
  split_nl (join nl ls) = ls.
Proof.
  intros Hne Hls. induction Hls as [|l ls Hl Hls IH]; [done|].
  destruct ls as [|l' ls].
  - simpl. by apply split_nl_line.
  - change (join nl (l :: l' :: ls)) with (l +:+ nl +:+ join nl (l' :: ls)).
    rewrite split_nl_app, split_nl_line by done.
    by rewrite IH.
Qed.

Lemma list_index_app x pre post :
  Forall (λ y, y ≠ x) pre →
  list_index x (pre ++ x :: post) = Ok (length pre).
Proof.
  induction 1 as [|y pre Hy _ IH]; simpl.
  - by rewrite decide_True.
  - rewrite decide_False by done. by rewrite IH.
Qed.

Lemma contains_newline_app a b :
  contains_newline (a +:+ b) = contains_newline a || contains_newline b.
Proof.
  induction a as [|c a IH]; simpl; [done|].
  by rewrite IH, orb_assoc.
Qed.

(** Where the anchor is: when no managed pattern contains a newline, the
    rendering of a verified collection starts with the line [managed:],
    one line per pattern (one empty line if there is none) and an empty
    line; the [resources:] line that [index] finds comes right after
    them. *)
Theorem Resources_str_anchor_position (self : Resources) :
  _verify pattern_matches self = Ok () →
  Forall (λ m, contains_newline m = false) (managed self) →
  ∃ s rest,
    Resources_str t formatter pattern_matches self = Ok s
    ∧ split_nl s
      = "managed:"
        :: (if decide (managed self = []) then [""]
            else (λ m, "  - " +:+ m) <$> managed self)
        ++ "" :: "resources:" :: rest
    ∧ list_index "resources:" (split_nl s)
      = Ok (2 + max 1 (length (managed self))).
Proof.
  intros Hv Hnl. unfold Resources_str. rewrite Hv.
  cbn [mbind result_bind].
  set (body := indent _ _).
  set (plines := (λ m, "  - " +:+ m) <$> managed self).
  assert (split_nl (join nl plines)
          = if decide (managed self = []) then [""] else plines) as Hp.
  { case_decide as Hm.
    - unfold plines. by rewrite Hm.
    - apply split_nl_join.
      + unfold plines. by destruct (managed self).
      + unfold plines. apply Forall_fmap.
        eapply Forall_impl; [exact Hnl|]. intros m Hm'. simpl.
        done. }
  eexists _, (split_nl body). split; [done|].
  assert (split_nl
            ("managed:" +:+ nl +:+ join nl plines +:+ nl +:+ nl
             +:+ "resources:" +:+ nl +:+ body)
          = "managed:"
            :: (if decide (managed self = []) then [""] else plines)
            ++ "" :: "resources:" :: split_nl body) as Hsplit.
  { rewrite split_nl_app, (split_nl_app (join nl plines)), Hp.
    match goal with
    | |- context [split_nl (nl +:+ ?x)] =>
        change (split_nl (nl +:+ x)) with (split_nl ("" +:+ nl +:+ x))
    end.
    rewrite (split_nl_app ""), (split_nl_app "resources:"). done. }
  split; [exact Hsplit|].
  rewrite Hsplit.
  assert (∀ a b : list string,
            "managed:" :: a ++ "" :: "resources:" :: b
            = ("managed:" :: a ++ [""]) ++ "resources:" :: b) as ->
      by (intros; simpl; by rewrite <- app_assoc).
  rewrite list_index_app.
  - f_equal. simpl. rewrite length_app. simpl.
    case_decide as Hm.
    + rewrite Hm. simpl. lia.
    + unfold plines. rewrite length_fmap.
      destruct (managed self); [done|]. simpl. lia.
  - constructor; [done|]. apply Forall_app. split; [|by constructor].
    case_decide; [by constructor|].
    unfold plines. apply Forall_fmap, Forall_forall. by intros m _.
Qed.
End diff_properties.

(** * Properties of [show_diff] *)

Section show_diff_properties.
Context (t : Terminal).
Context (formatter : string → string → option (value → string)).
Context (pattern_matches : string → string → bool).
Context (strip_ansi : string → string).
Context (unified_diff :
           list string → list string → string → string → nat → list string).
Context (re_compile : string → result (string → bool)).

Lemma StronglySorted_filter {A} (R : relation A) (P : A → Prop)
    `{∀ x, Decision (P x)} l :
  StronglySorted R l → StronglySorted R (filter P l).
Proof.
  induction 1 as [|x l Hl IH Hx]; [constructor|].
  rewrite filter_cons. case_decide; [|done].
  constructor; [done|].
  apply Forall_forall. intros y [_ Hy]%list_elem_of_filter.
  rewrite Forall_forall in Hx. by apply Hx.
Qed.

(** Restricting a verified collection to the resources that a predicate
    on ids selects gives a verified collection, in the same order. *)
Lemma grep_resources_verified (reg : string → bool) (c : Resources) :
  sorted_by_id (resources c) →
  _verify pattern_matches c = Ok () →
  grep_resources pattern_matches reg c
  = Ok (mkResources (filter (λ r, reg (id r) = true) (resources c))
          (managed c)).
Proof.
  intros Hs Hv. apply _verify_ok in Hv as [Hnd Hm]; [|done].
  unfold grep_resources, Resources_init.
  assert (sorted_by_id (filter (λ r, reg (id r) = true) (resources c)))
    as Hs' by (by apply StronglySorted_filter).
  rewrite sorted_by_id_sorted by done.
  rewrite (proj2 (_verify_ok pattern_matches
                    (mkResources _ (managed c)) Hs')); [done|].
  simpl. split.
  - eapply sublist_NoDup; [exact Hnd|]. apply fmap_sublist, sublist_filter.
  - apply Forall_forall. intros r [_ Hr]%list_elem_of_filter.
    rewrite Forall_forall in Hm. by apply Hm.
Qed.

(** [--grep]: on verified collections and a pattern that compiles, both
    are restricted to the resources whose id the pattern is found in,
    which never fails and leaves them verified, and the diff asked for is
    that of the restricted collections. *)
Theorem show_diff_grep (generated current : Resources) (pattern : string)
    (reg : string → bool) (ids_only : bool) :
  sorted_by_id (resources generated) →
  _verify pattern_matches generated = Ok () →
  sorted_by_id (resources current) →
  _verify pattern_matches current = Ok () →
  pattern ≠ "" →
  re_compile pattern = Ok reg →
  let generated' :=
    mkResources (filter (λ r, reg (id r) = true) (resources generated))
      (managed generated) in
  let current' :=
    mkResources (filter (λ r, reg (id r) = true) (resources current))
      (managed current) in
  _verify pattern_matches generated' = Ok ()
  ∧ _verify pattern_matches current' = Ok ()
  ∧ show_diff t formatter pattern_matches strip_ansi unified_diff
      re_compile generated current false (Some pattern) ids_only
    = if ids_only then id_diff t generated' current'
      else textual_diff t formatter pattern_matches strip_ansi unified_diff
             generated' current'.
Proof.
  intros Hsg Hvg Hsc Hvc Hne Hre generated' current'.
  pose proof (grep_resources_verified reg generated Hsg Hvg) as Hg.
  pose proof (grep_resources_verified reg current Hsc Hvc) as Hc.
  assert (∀ c c', grep_resources pattern_matches reg c = Ok c' →
                  _verify pattern_matches c' = Ok ()) as Hver.
  { intros c c' H. unfold grep_resources, Resources_init in H.
    destruct (_verify pattern_matches (mkResources _ (managed c)))
      as [[]|] eqn:E; [|done].
    injection H as <-. exact E. }
  split_and!; [by eapply Hver|by eapply Hver|].
  unfold show_diff. rewrite decide_False by done.
  rewrite Hre. cbn [mbind result_bind]. rewrite Hg.
  cbn [mbind result_bind]. rewrite Hc. done.
Qed.

Lemma blank_description_id r : id (blank_description r) = id r.
Proof. done. Qed.

Lemma evolve_blank (r : Resource) :
  NoDup (field_names r) →
  "description" ∈ (other_fields r).*1 →
  evolve r {["description" := VStr ""]} = Ok (blank_description r).
Proof.
  intros Hnd Hdesc. unfold evolve, Class_call.
  assert ("description" ∈ field_names r) as Hin by (by right).
  rewrite decide_True.
  2:{ rewrite dom_union_L, dom_singleton_L, asdict_dom.
      apply subseteq_union_1_L. apply singleton_subseteq_l.
      by apply elem_of_list_to_set. }
  unfold blank_description. destruct r as [k [kn kv] others].
  simpl in *. unfold field_names, fields in Hnd. simpl in Hnd.
  pose proof Hnd as [Hkn _]%NoDup_cons.
  assert (kn ≠ "description") as Hne by (by intros ->).
  set (m := {["description" := VStr ""]}
            ∪ asdict (mkResource k (kn, kv) others)).
  assert (∀ a v, (a, v) ∈ (kn, kv) :: others →
            m !!! a = if decide (a = "description") then VStr "" else v)
    as Hval.
  { intros a v Hav. apply lookup_total_correct. unfold m.
    case_decide as Ha.
    - subst. apply lookup_union_Some_l. apply lookup_singleton_eq.
    - rewrite lookup_union_r by (by apply lookup_singleton_ne).
      by apply asdict_field. }
  do 2 f_equal.
  - f_equal. rewrite (Hval kn kv) by (by left). by rewrite decide_False.
  - assert (∀ f, f ∈ others →
              m !!! f.1 = if decide (f.1 = "description") then VStr ""
                          else f.2) as Hval'.
    { intros [a v] Hf. apply Hval. by right. }
    clear -Hval'. revert Hval'. generalize m. intros d Hval.
    induction others as [|[a v] l IH]; [done|].
    pose proof (Hval (a, v) ltac:(by left)) as Ha. simpl in Ha.
    simpl. rewrite Ha. f_equal.
    + by case_decide.
    + apply IH. intros f Hf. apply Hval. by right.
Qed.

Lemma evolve_no_description (r : Resource) :
  "description" ∉ field_names r →
  evolve r {["description" := VStr ""]} = Raise TypeError.
Proof.
  intros Hno. unfold evolve, Class_call. rewrite decide_False; [done|].
  rewrite dom_union_L, dom_singleton_L, asdict_dom. intros E.
  apply Hno. change (attrs (class_of r)) with (field_names r) in E.
  assert ("description" ∈ (list_to_set (field_names r) : gset string))
    as H.
  { rewrite <- E. apply elem_of_union_l. by apply elem_of_singleton. }
  by apply elem_of_list_to_set in H.
Qed.

Lemma mapM_all_ok {A B} (f : A → result B) (g : A → B) l :
  Forall (λ x, f x = Ok (g x)) l → mapM f l = Ok (g <$> l).
Proof.
  induction 1 as [|x l Hx _ IH]; [done|].
  cbn [mapM]. rewrite Hx. cbn [mbind result_bind]. by rewrite IH.
Qed.

Lemma mapM_raises {A B} (f : A → result B) e l :
  (∀ x e', f x = Raise e' → e' = e) →
  (∃ x, x ∈ l ∧ f x = Raise e) →
  mapM f l = Raise e.
Proof.
  intros Honly (x & Hx & Hfx). induction l as [|y l IH].
  - by apply elem_of_nil in Hx.
  - cbn [mapM]. destruct (f y) as [b|e'] eqn:Hy.
    + cbn [mbind result_bind].
      apply elem_of_cons in Hx as [->|Hx]; [congruence|].
      by rewrite IH.
    + cbn [mbind result_bind]. f_equal. by eapply Honly.
Qed.

(** Resetting the descriptions of a verified collection whose resources
    all have a [description] field besides the primary key keeps the ids
    and the order, and the result is verified. *)
Lemma reset_descriptions_verified (c : Resources) :
  sorted_by_id (resources c) →
  _verify pattern_matches c = Ok () →
  Forall (λ r, NoDup (field_names r)
               ∧ "description" ∈ (other_fields r).*1) (resources c) →
  reset_descriptions pattern_matches c
  = Ok (mkResources (blank_description <$> resources c) (managed c)).
Proof.
  intros Hs Hv Hdesc. apply _verify_ok in Hv as [Hnd Hm]; [|done].
  unfold reset_descriptions.
  rewrite (mapM_all_ok _ blank_description).
  2:{ eapply Forall_impl; [exact Hdesc|]. intros r [? ?].
      by apply evolve_blank. }
  cbn [mbind result_bind]. unfold Resources_init.
  assert (id <$> (blank_description <$> resources c) = id <$> resources c)
    as Hids.
  { rewrite <- list_fmap_compose. by apply list_fmap_ext. }
  assert (sorted_by_id (blank_description <$> resources c)) as Hs'.
  { apply (key_sorted_fmap id). rewrite Hids. by apply (key_sorted_fmap id). }
  rewrite sorted_by_id_sorted by done.
  rewrite (proj2 (_verify_ok pattern_matches
                    (mkResources _ (managed c)) Hs')); [done|].
  simpl. rewrite Hids. split; [done|].
  apply Forall_fmap. eapply Forall_impl; [exact Hm|]. by intros r Hr.
Qed.

(** [--ignore-descriptions]: two verified collections whose resources
    all have a [description] field besides the primary key, and which
    differ in the descriptions only, have an empty identity diff. *)
Theorem show_diff_ignores_descriptions (generated current : Resources) :
  sorted_by_id (resources generated) →
  _verify pattern_matches generated = Ok () →
  sorted_by_id (resources current) →
  _verify pattern_matches current = Ok () →
  Forall (λ r, NoDup (field_names r)
               ∧ "description" ∈ (other_fields r).*1)
         (resources generated ++ resources current) →
  blank_description <$> resources generated
  = blank_description <$> resources current →
  show_diff t formatter pattern_matches strip_ansi unified_diff re_compile
    generated current true None true
  = Ok "".
Proof.
  intros Hsg Hvg Hsc Hvc [Hdg Hdc]%Forall_app Heq.
  unfold show_diff. cbn [mbind result_bind fst snd].
  rewrite (reset_descriptions_verified generated) by done.
  cbn [mbind result_bind].
  rewrite (reset_descriptions_verified current) by done.
  cbn [mbind result_bind fst snd].
  by apply id_diff_same_resources.
Qed.

(** [--ignore-descriptions] on a generated collection one of whose
    resources has no [description] field raises [TypeError], whichever
    diff is asked for. *)
Theorem show_diff_without_description (generated current : Resources)
    (ids_only : bool) :
  (∃ r, r ∈ resources generated ∧ "description" ∉ field_names r) →
  show_diff t formatter pattern_matches strip_ansi unified_diff re_compile
    generated current true None ids_only
  = Raise TypeError.
Proof.
  intros (r & Hr & Hno). unfold show_diff, reset_descriptions.
  cbn [mbind result_bind fst snd].
  rewrite (mapM_raises _ TypeError (resources generated));
    [reflexivity| |].
  - intros x e'. unfold evolve, Class_call. case_decide; [done|].
    by intros [= <-].
  - exists r. split; [done|]. by apply evolve_no_description.
Qed.
End show_diff_properties.

(** * The rendering below the anchor, and when the textual diff returns *)

Section rendering_properties.
Context (t : Terminal).
Context (formatter : string → string → option (value → string)).
Context (pattern_matches : string → string → bool).
Context (strip_ansi : string → string).
Context (unified_diff :
           list string → list string → string → string → nat → list string).

Lemma append_assoc (a b c : string) : (a +:+ b) +:+ c = a +:+ b +:+ c.
Proof.
  induction a as [|x a IH]; [done|].
  change (String x ((a +:+ b) +:+ c) = String x (a +:+ b +:+ c)).
  by f_equal.
Qed.

Lemma Resources_str_lines (self : Resources) :
  _verify pattern_matches self = Ok () →
  Forall (λ m, contains_newline m = false) (managed self) →
  ∃ s,
    Resources_str t formatter pattern_matches self = Ok s
    ∧ split_nl s
      = ("managed:"
         :: (if decide (managed self = []) then [""]
             else (λ m, "  - " +:+ m) <$> managed self) ++ [""])
        ++ "resources:"
        :: split_nl (indent (join (nl +:+ nl)
                               (Resource_str t formatter <$> iter self))
                       "  ").
Proof.
  intros Hv Hnl.
  destruct (Resources_str_anchor_position t formatter pattern_matches self
              Hv Hnl) as (s & rest & Hs & Hsplit & _).
  exists s. split; [done|].
  unfold Resources_str in Hs. rewrite Hv in Hs.
  cbn [mbind result_bind] in Hs. injection Hs as <-.
  rewrite split_nl_app, (split_nl_app (join nl _)).
  match goal with
  | |- context [split_nl (nl +:+ ?x)] =>
      change (split_nl (nl +:+ x)) with (split_nl ("" +:+ nl +:+ x))
  end.
  rewrite (split_nl_app ""), (split_nl_app "resources:").
  simpl. rewrite <- app_assoc. simpl. do 2 f_equal.
  case_decide as Hm.
  - by rewrite Hm.
  - apply split_nl_join.
    + by destruct (managed self).
    + apply Forall_fmap. eapply Forall_impl; [exact Hnl|].
      by intros m Hm'.
Qed.

Lemma Resource_str_header (r : Resource) :
  ∃ y, Resource_str t formatter r = header t r +:+ nl +:+ y.
Proof.
  unfold Resource_str.
  set (step := λ (rv : list string) (a : string * value), _).
  assert (∀ l acc, ∃ extra,
            foldl step acc l = acc ++ extra ∧ (l ≠ [] → extra ≠ []))
    as Hfold.
  { induction l as [|a l IH]; intros acc.
    - exists []. by rewrite app_nil_r.
    - simpl. destruct (IH (step acc a)) as (extra & -> & _).
      unfold step.
      destruct (contains_newline _).
      + eexists. rewrite <- app_assoc. split; [done|]. done.
      + eexists. rewrite <- app_assoc. split; [done|]. done. }
  destruct (Hfold (fields r) [header t r]) as (extra & -> & Hne).
  destruct extra as [|x extra]; [by destruct Hne|].
  by eexists.
Qed.

Lemma join_header (r0 : Resource) (rest : list Resource) :
  ∃ z, join (nl +:+ nl) (Resource_str t formatter <$> r0 :: rest)
       = header t r0 +:+ nl +:+ z.
Proof.
  destruct (Resource_str_header r0) as [y Hy].
  destruct rest as [|r1 rest].
  - exists y. simpl. exact Hy.
  - rewrite !fmap_cons.
    change (join ?sep (?x :: ?x' :: ?l))
      with (x +:+ sep +:+ join sep (x' :: l)).
    rewrite Hy, !append_assoc. by eexists.
Qed.

Lemma has_linebreak_newline s :
  has_linebreak s = false → contains_newline s = false.
Proof.
  induction s as [|c s IH]; simpl; [done|].
  intros [Hc Hs]%orb_false_elim. rewrite IH by done.
  rewrite orb_false_r. apply bool_decide_eq_false. intros ->. done.
Qed.

Lemma splitlines_keepends_first h z :
  has_linebreak h = false →
  splitlines_keepends (h +:+ nl +:+ z)
  = (h +:+ nl) :: splitlines_keepends z.
Proof.
  induction h as [|c h IH]; simpl.
  - intros _. by destruct z.
  - intros [Hc Hh]%orb_false_elim. rewrite Hc, IH by done. done.
Qed.

Lemma indent_first h z :
  has_linebreak h = false → has_nonspace h = true →
  indent (h +:+ nl +:+ z) "  " = "  " +:+ h +:+ nl +:+ indent z "  ".
Proof.
  intros Hh Hns. unfold indent.
  rewrite splitlines_keepends_first by done.
  rewrite fmap_cons. cbn [concat_str foldr].
  assert (has_nonspace (h +:+ nl) = true) as ->.
  { clear Hh. induction h as [|c h IH]; [done|].
    simpl in *. destruct (is_space c); simpl in *; [by apply IH|done]. }
  by rewrite !append_assoc.
Qed.

(** The first line below the anchor is the header of the first resource,
    indented by two spaces; hence a hunk that starts on that line is
    labelled with this header: the id between the underline and normal
    sequences of the terminal, followed by a colon.  This needs the
    header to begin with a character that is not whitespace and to hold
    no line boundary, and the managed patterns to hold no newline. *)
Theorem first_header_label (self : Resources) (r0 : Resource)
    (rest : list Resource) (c : ascii) (h : string) :
  _verify pattern_matches self = Ok () →
  Forall (λ m, contains_newline m = false) (managed self) →
  resources self = r0 :: rest →
  header t r0 = String c h → is_space c = false →
  has_linebreak (header t r0) = false →
  ∃ s start,
    Resources_str t formatter pattern_matches self = Ok s
    ∧ list_index "resources:" (split_nl s) = Ok start
    ∧ split_nl s !! S start = Some ("  " +:+ header t r0)
    ∧ ∀ d, hunk_range d (start + 2) →
           contextualize (split_nl s) start d = Ok (header t r0).
Proof.
  intros Hv Hnl Hres Hhead Hc Hlb.
  destruct (Resources_str_lines self Hv Hnl) as (s & Hs & Hlines).
  destruct (Resources_str_anchor_position t formatter pattern_matches self
              Hv Hnl) as (s' & _ & Hs' & _ & Hidx).
  assert (s' = s) as -> by congruence.
  exists s, (2 + max 1 (length (managed self))).
  split; [done|]. split; [done|].
  unfold iter in Hlines. rewrite Hres in Hlines.
  destruct (join_header r0 rest) as [z Hz]. rewrite Hz in Hlines.
  rewrite indent_first in Hlines; [|done|by rewrite Hhead; simpl; rewrite Hc].
  change ("  " +:+ header t r0 +:+ nl +:+ indent z "  ")
    with (("  " +:+ header t r0) +:+ nl +:+ indent z "  ") in Hlines.
  rewrite split_nl_app in Hlines.
  rewrite (split_nl_line ("  " +:+ header t r0)) in Hlines
    by (simpl; by apply has_linebreak_newline).
  set (pre := "managed:" :: _ ++ [""]) in Hlines.
  assert (length pre = 2 + max 1 (length (managed self))) as Hlen.
  { unfold pre. simpl. rewrite length_app. simpl.
    case_decide as Hm.
    - rewrite Hm. simpl. lia.
    - rewrite length_fmap. destruct (managed self); [done|]. simpl. lia. }
  assert (split_nl s !! S (2 + max 1 (length (managed self)))
          = Some ("  " +:+ header t r0)) as Hline.
  { rewrite Hlines, <- Hlen.
    rewrite lookup_app_r by lia.
    replace (S (length pre) - length pre) with 1 by lia. done. }
  split; [exact Hline|].
  intros d Hd.
  destruct (context_re_hunk_range d _ Hd) as (digits & Hre & Hint).
  unfold contextualize. rewrite Hre. cbn [mbind result_bind].
  rewrite Hint. cbn [mbind result_bind].
  replace (2 + max 1 (length (managed self)) + 2)
    with (S (S (2 + max 1 (length (managed self))))) by lia.
  cbn [scan_back]. rewrite decide_True by lia. rewrite Hline.
  assert (contains_newline ("  " +:+ header t r0) = false) as Hnl'
      by (simpl; by apply has_linebreak_newline).
  assert (two_space_line ("  " +:+ header t r0) (header t r0)) as Htwo.
  { exists c, h. split; [|by rewrite Hhead]. intros ->. done. }
  by rewrite (proj2 (label_re_spec _ _ Hnl') Htwo).
Qed.

Lemma mapM_all_defined {A B} (f : A → result B) l :
  Forall (λ x, ∃ y, f x = Ok y) l → ∃ ys, mapM f l = Ok ys.
Proof.
  induction 1 as [|x l [y Hy] _ [ys IH]]; [by eexists|].
  cbn [mapM]. rewrite Hy. cbn [mbind result_bind]. rewrite IH.
  by eexists.
Qed.

(** When [textual_diff] returns: on two verified collections it raises
    nothing as long as [difflib] writes lines of the expected shapes, the
    numbers of its hunk-range lines being lines of the rendering of
    [current]. *)
Theorem textual_diff_returns (generated current : Resources) (s s' : string) :
  Resources_str t formatter pattern_matches current = Ok s →
  Resources_str t formatter pattern_matches generated = Ok s' →
  Forall (diff_line_ok (split_nl s))
         (unified_diff (split_nl s) (split_nl s') "current" "generated" 8) →
  ∃ out,
    textual_diff t formatter pattern_matches strip_ansi unified_diff
      generated current = Ok out.
Proof.
  intros Hcur Hgen Hlines.
  destruct (hunk_context_label t formatter pattern_matches strip_ansi
              unified_diff current s Hcur)
    as (start & Hstart & Htd & Hhunk).
  rewrite (Htd generated s' Hgen).
  destruct (mapM_all_defined
              (λ line, let l := if decide (line = "") then " " else line in
                       rstrip <$> colorize t strip_ansi (split_nl s) start l)
              (unified_diff (split_nl s) (split_nl s')
                 "current" "generated" 8)) as [ys Hys].
  - eapply Forall_impl; [exact Hlines|]. intros l Hl. cbn zeta.
    destruct Hl as [-> | [(c & rest & -> & Hc) | (rest & -> & Hat)]].
    + by eexists.
    + rewrite decide_False by done.
      destruct Hc as [-> | [-> | ->]]; by eexists.
    + rewrite decide_False by done.
      destruct Hat as [Hnone|(n & Hd & Hn)].
      * unfold colorize, contextualize. rewrite Hnone. by eexists.
      * destruct (Hhunk _ n Hd Hn) as (label & -> & _). by eexists.
  - rewrite Hys. by eexists.
Qed.
End rendering_properties.

(** * The further properties on sample data *)

Lemma Resources_init_permutation_witness :
  Resources_init sample_matches [Worker "w2" 1; Worker "w1" 5] ["*"]
  = Resources_init sample_matches [Worker "w1" 5; Worker "w2" 1] ["*"].
Proof.
  apply (Resources_init_permutation sample_matches).
  apply Permutation_swap.
Defined.

Lemma add_keeps_verified_witness :
  ∃ self',
    add sample_matches sample_current (Worker "w2" 3) = (Ok (), self')
    ∧ _verify sample_matches self' = Ok ()
    ∧ Worker "w2" 3 ∈ iter self'.
Proof.
  destruct (add_keeps_verified sample_matches sample_current (Worker "w2" 3))
    as (self' & Hadd & _ & Hv & Hin & _).
  - repeat constructor.
  - vm_compute. reflexivity.
  - reflexivity.
  - apply (bool_decide_unpack _). vm_compute. exact I.
  - exists self'. split; [exact Hadd|]. split; [exact Hv|exact Hin].
Defined.

Lemma init_then_add_witness :
  ∃ self',
    add sample_matches sample_current (Worker "w2" 3) = (Ok (), self')
    ∧ Resources_init sample_matches [Worker "w1" 5; Worker "w2" 3] ["*"]
      = Ok self'.
Proof.
  apply (init_then_add sample_matches [Worker "w1" 5] ["*"] sample_current
           (Worker "w2" 3)).
  - vm_compute. reflexivity.
  - reflexivity.
  - apply (bool_decide_unpack _). vm_compute. exact I.
Defined.

Lemma manage_widens_witness :
  (add sample_matches
     (manage (mkResources [Worker "w1" 5] ["Worker=w1"]) "Worker=w9")
     (Worker "w9" 0)).1
  = Ok ().
Proof.
  apply (manage_widens sample_matches
           (mkResources [Worker "w1" 5] ["Worker=w1"]) "Worker=w9").
  reflexivity.
Defined.

Lemma Resource_to_json_from_json_witness :
  Resource_to_json (Worker "w1" 5)
  = <["kind" := VStr "Worker"]>
      (<["id" := VStr "w1"]> (<["count" := VInt 5]> ∅)).
Proof.
  apply (Resource_to_json_from_json [Worker_class]).
  vm_compute. reflexivity.
Defined.

Lemma Resource_from_json_outcome_witness :
  Resource_from_json [Worker_class]
    (<["kind" := VStr "Hook"]> (<["id" := VStr "h1"]> ∅))
  = Raise (KeyError (VStr "Hook"))
  ∧ Resource_from_json [mkClass "Worker" "name" []; Worker_class]
      (Resource_to_json (Worker "w1" 5))
    = Class_call Worker_class (delete "kind" (Resource_to_json (Worker "w1" 5))).
Proof.
  split.
  - apply (Resource_from_json_outcome [Worker_class]).
    + reflexivity.
    + intros k [= <-]. apply (bool_decide_unpack _). vm_compute. exact I.
  - destruct (proj2 (proj2 (Resource_from_json_outcome
                              [mkClass "Worker" "name" []; Worker_class]
                              (Resource_to_json (Worker "w1" 5))))
                "Worker")
      as (c & Hlast & _ & _ & Hcall & _).
    + reflexivity.
    + apply (bool_decide_unpack _). vm_compute. exact I.
    + vm_compute in Hlast. injection Hlast as <-. exact Hcall.
Defined.

Lemma from_json_verified_witness :
  from_json sample_matches [Worker_class]
    (mkResourcesJson
       [Resource_to_json (Worker "w2" 1); Resource_to_json (Worker "w1" 5)]
       ["*"])
  = Ok (mkResources [Worker "w1" 5; Worker "w2" 1] ["*"])
  ∧ _verify sample_matches (mkResources [Worker "w1" 5; Worker "w2" 1] ["*"])
    = Ok ().
Proof.
  assert (from_json sample_matches [Worker_class]
            (mkResourcesJson
               [Resource_to_json (Worker "w2" 1);
                Resource_to_json (Worker "w1" 5)] ["*"])
          = Ok (mkResources [Worker "w1" 5; Worker "w2" 1] ["*"])) as H
      by (vm_compute; reflexivity).
  split; [exact H|].
  exact (proj1 (proj2 (from_json_verified sample_matches [Worker_class]
                         _ _ H))).
Defined.

Lemma evolve_outcome_witness :
  ∃ r',
    evolve (Worker "w1" 5) {["count" := VInt 7]} = Ok r'
    ∧ kind r' = "Worker"
    ∧ id r' = "Worker=w1".
Proof.
  destruct (proj1 (evolve_outcome (Worker "w1" 5) {["count" := VInt 7]}
                     ltac:(apply (bool_decide_unpack _); vm_compute; exact I)))
    as (r' & Hev & Hkind & _ & _ & Hid & _).
  - apply (bool_decide_unpack _). vm_compute. exact I.
  - exists r'. split; [exact Hev|]. split; [exact Hkind|].
    apply Hid. reflexivity.
Defined.

Lemma id_diff_same_resources_witness :
  id_diff plain_terminal sample_current
    (mkResources (resources sample_current) []) = Ok "".
Proof.
  exact (id_diff_same_resources plain_terminal sample_current
           (mkResources (resources sample_current) []) eq_refl).
Defined.

Lemma sample_hunk_range : hunk_range "@@ -1,7 +1,7 @@" 1.
Proof.
  exists "1", "7 +1,7 @@". split; [reflexivity|].
  split; [discriminate|]. split; reflexivity.
Defined.

Lemma contextualize_below_anchor_witness :
  contextualize ["managed:"; "  - *"; ""; "resources:"; "  Worker=w1:"] 3
    "@@ -1,7 +1,7 @@"
  = Ok "".
Proof.
  apply (proj2 (contextualize_below_anchor
                  ["managed:"; "  - *"; ""; "resources:"; "  Worker=w1:"]
                  [] 3 "@@ -1,7 +1,7 @@") 1).
  - exact sample_hunk_range.
  - lia.
Defined.

Lemma Resources_str_anchor_position_witness :
  ∃ s,
    Resources_str plain_terminal no_formatter sample_matches sample_current
    = Ok s
    ∧ list_index "resources:" (split_nl s) = Ok 3.
Proof.
  destruct (Resources_str_anchor_position plain_terminal no_formatter
              sample_matches sample_current)
    as (s & rest & Hs & _ & Hidx).
  - vm_compute. reflexivity.
  - repeat constructor.
  - exists s. split; [exact Hs|exact Hidx].
Defined.

Lemma show_diff_grep_witness :
  show_diff plain_terminal no_formatter sample_matches (λ x, x)
    sample_unified_diff sample_re_compile
    (mkResources [Worker "w1" 3; Worker "w2" 1] ["*"])
    (mkResources [Worker "w1" 5; Worker "w3" 1] ["*"])
    false (Some "w1") true
  = id_diff plain_terminal sample_generated sample_current.
Proof.
  destruct (show_diff_grep plain_terminal no_formatter sample_matches
              (λ x, x) sample_unified_diff sample_re_compile
              (mkResources [Worker "w1" 3; Worker "w2" 1] ["*"])
              (mkResources [Worker "w1" 5; Worker "w3" 1] ["*"])
              "w1" (λ s, bool_decide (is_Some (String.index 0 "w1" s))) true)
    as (_ & _ & H).
  - repeat constructor.
  - vm_compute. reflexivity.
  - repeat constructor.
  - vm_compute. reflexivity.
  - discriminate.
  - reflexivity.
  - etrans; [exact H|]. vm_compute. reflexivity.
Defined.

Lemma show_diff_ignores_descriptions_witness :
  show_diff plain_terminal no_formatter sample_matches (λ x, x)
    sample_unified_diff sample_re_compile
    (mkResources [Role "r1" "a"] ["*"]) (mkResources [Role "r1" "b"] ["*"])
    true None true
  = Ok "".
Proof.
  apply (show_diff_ignores_descriptions plain_terminal no_formatter
           sample_matches (λ x, x) sample_unified_diff sample_re_compile).
  - repeat constructor.
  - vm_compute. reflexivity.
  - repeat constructor.
  - vm_compute. reflexivity.
  - repeat constructor;
      (apply (bool_decide_unpack _); vm_compute; exact I).
  - reflexivity.
Defined.

Lemma show_diff_without_description_witness :
  show_diff plain_terminal no_formatter sample_matches (λ x, x)
    sample_unified_diff sample_re_compile
    sample_generated sample_current true None true
  = Raise TypeError.
Proof.
  apply (show_diff_without_description plain_terminal no_formatter
           sample_matches (λ x, x) sample_unified_diff sample_re_compile).
  exists (Worker "w1" 3). split; [by left|].
  apply (bool_decide_unpack _). vm_compute. exact I.
Defined.

Lemma first_header_label_witness :
  ∃ s start,
    Resources_str plain_terminal no_formatter sample_matches sample_current
    = Ok s
    ∧ split_nl s !! S start = Some "  Worker=w1:"
    ∧ ∀ d, hunk_range d (start + 2) →
           contextualize (split_nl s) start d = Ok "Worker=w1:".
Proof.
  destruct (first_header_label plain_terminal no_formatter sample_matches
              sample_current (Worker "w1" 5) [] "W"%char "orker=w1:")
    as (s & start & Hs & _ & Hline & Hlabel).
  - vm_compute. reflexivity.
  - repeat constructor.
  - reflexivity.
  - reflexivity.
  - reflexivity.
  - reflexivity.
  - exists s, start. split; [exact Hs|]. split; [exact Hline|exact Hlabel].
Defined.

Lemma textual_diff_returns_witness :
  ∃ out,
    textual_diff plain_terminal no_formatter sample_matches (λ x, x)
      sample_unified_diff sample_generated sample_current
    = Ok out.
Proof.
  eapply (textual_diff_returns plain_terminal no_formatter sample_matches
            (λ x, x) sample_unified_diff sample_generated sample_current).
  - vm_compute. reflexivity.
  - vm_compute. reflexivity.
  - unfold sample_unified_diff.
    repeat (apply Forall_cons; split;
            [first
               [ right; left; eexists _, _; split; [reflexivity|];
                 first [ by left | right; by left | right; by right ]
               | right; right; eexists; split; [reflexivity|];
                 right; exists 1; split;
                 [exact sample_hunk_range | vm_compute; lia] ]
            |]).
    apply Forall_nil_2.
Defined.
